(** * robust_email_scraper.py: a two-level email crawler

    Shallow embedding of [src/robust_email_scraper.py] and the properties
    of its extraction, link filtering, crawl and output logic.

    The headless browser (Selenium) is an external collaborator.  It is
    represented by an oracle [web] that says, for every URL, what a
    navigation to it yields (the same at every visit during a run);
    everything the script itself computes (string handling, the regular
    expression search, set and list bookkeeping, the order of driver
    calls) is modelled from the code.

    A [string] stands for a Python [str] and each of its characters for a
    code point: the value of the character is the code point.  The model
    therefore covers the texts whose code points are all below 256; on
    these every operation below does what Python does.  Texts with other
    code points cannot be written down here and nothing is said about
    them.

    Two idealisations of the browser are made throughout, and no property
    below is about what they leave out: starting and closing a session
    succeed, and the only exception a driver call raises is
    [WebDriverException], inside the [try] blocks of [scrape_page] and
    [get_child_links]. *)

From Stdlib Require Import Ascii NArith.
From Stdlib Require String.
From stdpp Require Import base tactics option list strings sets gmap sorting.

#[local] Set Warnings "-clear-no-such-hyp".

(** ** Python string primitives used by the script *)

Module PyStr.

(** [s[k:]] *)
Fixpoint drop (k : nat) (s : string) : string :=
  match k, s with
  | O, _ => s
  | S _, EmptyString => EmptyString
  | S k', String _ s' => drop k' s'
  end.

(** [s[:k]] *)
Fixpoint take (k : nat) (s : string) : string :=
  match k, s with
  | O, _ => EmptyString
  | S _, EmptyString => EmptyString
  | S k', String c s' => String c (take k' s')
  end.

(** [s.startswith(p)] *)
Definition startswith (s p : string) : bool := String.prefix p s.

(** [needle in hay] *)
Fixpoint contains (needle hay : string) : bool :=
  String.prefix needle hay ||
  match hay with
  | EmptyString => false
  | String _ hay' => contains needle hay'
  end.

(** Characters removed by [str.strip()]: the code points below 256 for
    which [str.isspace] holds, namely TAB, LF, VT, FF, CR (9-13), FS, GS,
    RS, US (28-31), SPACE (32), NEXT LINE (133) and NO-BREAK SPACE (160). *)
Definition isspace (c : ascii) : bool :=
  let n := N_of_ascii c in
  ((9 <=? n) && (n <=? 13) || (28 <=? n) && (n <=? 32)
   || (n =? 133) || (n =? 160))%N.

Fixpoint lstrip (s : string) : string :=
  match s with
  | EmptyString => EmptyString
  | String c s' => if isspace c then lstrip s' else s
  end.

Fixpoint rstrip (s : string) : string :=
  match s with
  | EmptyString => EmptyString
  | String c s' =>
      match rstrip s' with
      | EmptyString => if isspace c then EmptyString else String c EmptyString
      | r => String c r
      end
  end.

(** [s.strip()] *)
Definition strip (s : string) : string := rstrip (lstrip s).

(** [s.split(sep)] for a non-empty separator: a left-to-right scan for
    non-overlapping occurrences of [sep].  [skip] counts the characters
    of an occurrence that still have to be stepped over, [cur] is the
    piece being accumulated. *)
Fixpoint split_go (sep : string) (skip : nat) (cur s : string) : list string :=
  match s with
  | EmptyString => [cur]
  | String c s' =>
      match skip with
      | S k => split_go sep k cur s'
      | O =>
          if String.prefix sep s
          then cur :: split_go sep (String.length sep - 1) EmptyString s'
          else split_go sep 0 (cur +:+ String c EmptyString) s'
      end
  end.

Definition split (s sep : string) : list string := split_go sep 0 EmptyString s.

End PyStr.

(** ** The regular expression search of [extract_emails] *)

Module Re.

(** The fragment of Python's [re] syntax the script uses: a sequence of
    items, each either a literal character or a character class under a
    greedy quantifier [{n,}] ([+] is [{1,}]). *)
Inductive item : Type :=
| Lit (c : ascii)
| AtLeast (n : nat) (cls : ascii → bool).

Definition pattern : Type := list item.

(** Length of the longest prefix of [s] made of characters of [cls]. *)
Fixpoint span (cls : ascii → bool) (s : string) : nat :=
  match s with
  | EmptyString => 0
  | String c s' => if cls c then S (span cls s') else 0
  end.

(** Backtracking of a greedy quantifier: try to continue after [k]
    repetitions, then [k-1], ... down to [lo]; the first success wins. *)
Fixpoint give_back (continue : nat → option nat) (lo k : nat) : option nat :=
  if k <? lo then None
  else
    match continue k with
    | Some m => Some (k + m)
    | None =>
        match k with
        | O => None
        | S k' => give_back continue lo k'
        end
    end.

(** [match_here p s]: the number of characters consumed by the match of
    [p] anchored at the start of [s] that a backtracking matcher finds
    first, if any. *)
Fixpoint match_here (p : pattern) (s : string) : option nat :=
  match p with
  | [] => Some 0
  | Lit c :: p' =>
      match s with
      | EmptyString => None
      | String c' s' =>
          if Ascii.eqb c c' then S <$> match_here p' s' else None
      end
  | AtLeast n cls :: p' =>
      give_back (λ k, match_here p' (PyStr.drop k s)) n (span cls s)
  end.

(** [re.findall(p, s)] for a pattern without groups: scan left to right,
    at each position take the match found there and resume right after
    it, otherwise move one character on.  [skip] counts the characters of
    the last match still to be stepped over. *)
Fixpoint findall_go (p : pattern) (skip : nat) (s : string) : list string :=
  match s with
  | EmptyString =>
      match skip, match_here p EmptyString with
      | O, Some _ => [EmptyString]
      | _, _ => []
      end
  | String _ s' =>
      match skip with
      | S k => findall_go p k s'
      | O =>
          match match_here p s with
          | Some m => PyStr.take m s :: findall_go p (m - 1) s'
          | None => findall_go p 0 s'
          end
      end
  end.

Definition findall (p : pattern) (s : string) : list string := findall_go p 0 s.

End Re.

(** Character classes of the e-mail pattern. *)
Definition in_range (lo hi c : ascii) : bool :=
  ((N_of_ascii lo <=? N_of_ascii c) && (N_of_ascii c <=? N_of_ascii hi))%N.

Definition one_of (cs : string) (c : ascii) : bool :=
  existsb (Ascii.eqb c) (String.list_ascii_of_string cs).

(** [[a-zA-Z]] *)
Definition cls_letter (c : ascii) : bool :=
  in_range "a" "z" c || in_range "A" "Z" c.

(** [[a-zA-Z0-9.-]] *)
Definition cls_domain (c : ascii) : bool :=
  cls_letter c || in_range "0" "9" c || one_of ".-" c.

(** [[a-zA-Z0-9._%+-]] *)
Definition cls_local (c : ascii) : bool :=
  cls_letter c || in_range "0" "9" c || one_of "._%+-" c.

(** [r"[a-zA-Z0-9._%+-]+@[a-zA-Z0-9.-]+\.[a-zA-Z]{2,}"] *)
Definition email_pattern : Re.pattern :=
  [ Re.AtLeast 1 cls_local; Re.Lit "@"; Re.AtLeast 1 cls_domain;
    Re.Lit "."; Re.AtLeast 2 cls_letter ].

Definition extract_emails (text : string) : list string :=
  Re.findall email_pattern text.

(** ** The browser, the program state and the effects of the script *)

(** What a navigation shows: [driver.page_source] and the [href]
    attributes of the [<a>] elements ([None] for an element without one).
    Either read can raise [WebDriverException], shown as [None]. *)
Record page : Type := Page {
  page_source : option string;
  anchors : option (list (option string));
}.

(** A Selenium session: its identity and the page it currently shows. *)
Record driver : Type := Driver {
  did : nat;
  current : option page;
}.

(** The lines the script prints. *)
Inductive message : Type :=
| MsgErrorLinks (url : string)
| MsgFailedScrape (url : string)
| MsgScrapingParent (url : string)
| MsgFoundLinks (n : nat)
| MsgStartParallel (n workers : nat)
| MsgScraped (n : nat) (url : string)
| MsgErrorScraping (url : string)
| MsgFinished (n : nat)
| MsgSaved (path : string).

(** Observable actions, oldest first in a trace. *)
Inductive event : Type :=
| EvCreate (d : nat)
| EvGet (d : nat) (url : string)
| EvSleep (secs : nat)
| EvQuit (d : nat)
| EvPrint (m : message).

(** The only exception of the script that no handler catches. *)
Inductive exn : Type :=
| IndexError.

Inductive outcome (A : Type) : Type :=
| Done (a : A)
| Raised (e : exn).
Arguments Done {A} a.
Arguments Raised {A} e.

(** Module-level variables, the session counter, the trace and the
    output file ([None] until it is opened for writing). *)
Record state : Type := State {
  all_emails : gset string;
  visited_links : gset string;
  parent_urls : list string;
  child_links_all : list string;
  sessions : nat;
  trace : list event;
  output : option (list (list string));
}.

Definition initial : state :=
  State ∅ ∅ [] [] 0 [] None.

Definition with_all_emails (f : gset string → gset string) (st : state) : state :=
  State (f (all_emails st)) (visited_links st) (parent_urls st)
        (child_links_all st) (sessions st) (trace st) (output st).
Definition with_visited_links (f : gset string → gset string) (st : state) : state :=
  State (all_emails st) (f (visited_links st)) (parent_urls st)
        (child_links_all st) (sessions st) (trace st) (output st).
Definition with_parent_urls (f : list string → list string) (st : state) : state :=
  State (all_emails st) (visited_links st) (f (parent_urls st))
        (child_links_all st) (sessions st) (trace st) (output st).
Definition with_child_links_all (f : list string → list string) (st : state) : state :=
  State (all_emails st) (visited_links st) (parent_urls st)
        (f (child_links_all st)) (sessions st) (trace st) (output st).
Definition with_sessions (f : nat → nat) (st : state) : state :=
  State (all_emails st) (visited_links st) (parent_urls st)
        (child_links_all st) (f (sessions st)) (trace st) (output st).
Definition with_trace (f : list event → list event) (st : state) : state :=
  State (all_emails st) (visited_links st) (parent_urls st)
        (child_links_all st) (sessions st) (f (trace st)) (output st).
Definition with_output (f : option (list (list string)) → option (list (list string)))
    (st : state) : state :=
  State (all_emails st) (visited_links st) (parent_urls st)
        (child_links_all st) (sessions st) (trace st) (f (output st)).

(** State and exception monad of the script. *)
Definition M (A : Type) : Type := state → state * outcome A.

#[global] Instance M_ret : MRet M := λ A a st, (st, Done a).
#[global] Instance M_bind : MBind M := λ A B f m st,
  match m st with
  | (st', Done a) => f a st'
  | (st', Raised e) => (st', Raised e)
  end.

Definition raise {A} (e : exn) : M A := λ st, (st, Raised e).
Definition gets {A} (f : state → A) : M A := λ st, (st, Done (f st)).
Definition modify (f : state → state) : M unit := λ st, (f st, Done ()).
Definition emit (e : event) : M unit := modify (with_trace (λ t, t ++ [e])).
Definition print (m : message) : M unit := emit (EvPrint m).

(** [for x in xs: body] *)
Fixpoint for_each {A} (xs : list A) (body : A → M unit) : M unit :=
  match xs with
  | [] => mret ()
  | x :: xs' => body x ;; for_each xs' body
  end.

(** [xs[i]], raising [IndexError] out of range. *)
Definition subscript {A} (xs : list A) (i : nat) : M A :=
  match xs !! i with
  | Some x => mret x
  | None => raise IndexError
  end.

(** Truth value of a Python string or list. *)
Definition truthy_str (s : string) : bool := negb (String.eqb s "").
Definition truthy_list {A} (l : list A) : bool :=
  match l with [] => false | _ => true end.

(** ** Configuration *)

Definition input_file : string := "websites.csv".
Definition output_file : string := "scraped_emails.csv".
Definition delay_between_pages : nat := 1.
Definition headless : bool := true.
Definition max_workers : nat := 4.

(** [as_completed]: futures are handed to the main thread in the order
    in which their tasks finish.  A schedule names, step by step, which of
    the still pending futures finishes next (an index out of range is
    skipped); what is left at the end of the schedule finishes in
    submission order. *)
Fixpoint as_completed {A} (sched : list nat) (pending : list A) : list A :=
  match sched with
  | [] => pending
  | i :: sched' =>
      match pending !! i with
      | Some x => x :: as_completed sched' (delete i pending)
      | None => as_completed sched' pending
      end
  end.

(** A submitted task: its URL and what [future.result()] gives. *)
Record future : Type := Future {
  future_url : string;
  future_result : outcome (list string);
}.

(** The rows [csv.writer] is given, in order. *)
Definition writerow (row : list string) : M unit :=
  modify (with_output (λ o, Some (default [] o ++ [row]))).

(** [sorted] on strings: ascending code-point order. *)
Definition sorted (l : list string) : list string := merge_sort String.le l.

Section Crawler.

(** What the browser shows at each URL; [None] when [driver.get]
    raises [WebDriverException]. *)
Variable web : string → option page.

(** ** Selenium setup *)

(** [webdriver.Chrome(options=options)]: a new session, numbered by the
    order of creation so that the events of different sessions can be
    told apart.  Starting the browser is taken to succeed. *)
Definition create_driver : M driver :=
  d ← gets sessions;
  modify (with_sessions S) ;;
  emit (EvCreate d) ;;
  mret (Driver d None).

(** [driver.get(url)]: the session after the navigation, or [None] on
    [WebDriverException]. *)
Definition driver_get (drv : driver) (url : string) : M (option driver) :=
  emit (EvGet (did drv) url) ;;
  mret (Driver (did drv) ∘ Some <$> web url).

Definition sleep (secs : nat) : M unit := emit (EvSleep secs).

Definition driver_quit (drv : driver) : M unit := emit (EvQuit (did drv)).

(** ** Helpers *)

(** The test of the loop in [get_child_links]. *)
Definition keep_link (url parent_domain : string) (href : option string) : bool :=
  match href with
  | None => false
  | Some h =>
      truthy_str h && PyStr.contains parent_domain h && negb (String.eqb h url)
  end.

(** Lines 42-46: the set built by the loop over the [<a>] elements. *)
Definition link_set (url parent_domain : string) (hrefs : list (option string))
    : gset string :=
  foldl (λ links href,
           if keep_link url parent_domain href
           then links ∪ from_option singleton ∅ href
           else links) ∅ hrefs.

Definition get_child_links (drv : driver) (url parent_domain : string)
    : M (driver * list string) :=
  nav ← driver_get drv url;
  match nav with
  | None => print (MsgErrorLinks url) ;; mret (drv, [])
  | Some drv =>
      sleep delay_between_pages ;;
      match current drv ≫= anchors with
      | None => print (MsgErrorLinks url) ;; mret (drv, [])
      | Some hrefs => mret (drv, elements (link_set url parent_domain hrefs))
      end
  end.

Definition scrape_page (drv : driver) (url : string) : M (driver * list string) :=
  nav ← driver_get drv url;
  match nav with
  | None => print (MsgFailedScrape url) ;; mret (drv, [])
  | Some drv =>
      sleep delay_between_pages ;;
      match current drv ≫= page_source with
      | None => print (MsgFailedScrape url) ;; mret (drv, [])
      | Some src => mret (drv, extract_emails src)
      end
  end.

Definition scrape_worker (url : string) : M (list string) :=
  drv ← create_driver;
  '(drv, emails) ← scrape_page drv url;
  driver_quit drv ;;
  mret emails.

(** ** Main *)

(** Lines 76-81: load the parent URLs. *)
Definition load_parent_urls (lines : list string) : M unit :=
  for_each lines (λ line,
    let line := PyStr.strip line in
    if truthy_str line
    then modify (with_parent_urls (λ l, l ++ [line]))
    else mret ()).

(** Lines 86-87. *)
Definition normalize (parent_url : string) : string :=
  if negb (PyStr.startswith parent_url "http")
  then "http://" +:+ parent_url
  else parent_url.

(** Line 98: [parent_url.split("//")[1].split("/")[0]]. *)
Definition parent_domain_of (parent_url : string) : M string :=
  rest ← subscript (PyStr.split parent_url "//") 1;
  subscript (PyStr.split rest "/") 0.

(** Lines 85-102: the body of the loop over the parent URLs. *)
Definition scrape_parent (parent_url : string) : M unit :=
  let parent_url := normalize parent_url in
  print (MsgScrapingParent parent_url) ;;
  modify (with_visited_links (λ v, v ∪ {[parent_url]})) ;;
  drv ← create_driver;
  '(drv, emails) ← scrape_page drv parent_url;
  (if truthy_list emails
   then modify (with_all_emails (λ s, s ∪ list_to_set emails))
   else mret ()) ;;
  parent_domain ← parent_domain_of parent_url;
  '(drv, child_links) ← get_child_links drv parent_url parent_domain;
  print (MsgFoundLinks (length child_links)) ;;
  modify (with_child_links_all (λ l, l ++ child_links)) ;;
  driver_quit drv.

(** Lines 84-102. *)
Definition scrape_parents : M unit :=
  seeds ← gets parent_urls;
  for_each seeds scrape_parent.

(** Line 105: remove duplicates and already visited links. *)
Definition remaining_links (child_links : list string) (visited : gset string)
    : list string :=
  filter (λ link, link ∉ visited) (elements (list_to_set child_links : gset string)).

Definition remove_duplicates_and_visited : M unit :=
  modify (λ st, with_child_links_all
                  (λ l, remaining_links l (visited_links st)) st).

(** [executor.submit(scrape_worker, url)]: the task runs in a worker
    thread and whatever it returns or raises is kept in the future. *)
Definition submit (url : string) : M future :=
  λ st, let '(st', r) := scrape_worker url st in (st', Done (Future url r)).

(** Line 110: one task per remaining link, submitted in list order.  The
    workers share nothing but the session counter and the trace.  Their
    events are recorded task by task, in submission order: this is one of
    the orders in which the events of concurrent workers can occur, the
    others are not represented.  Properties of the child phase are
    therefore stated up to the order of its events. *)
Fixpoint submit_all (urls : list string) : M (list future) :=
  match urls with
  | [] => mret []
  | url :: urls' =>
      f ← submit url;
      fs ← submit_all urls';
      mret (f :: fs)
  end.

(** Lines 112-119: the body of the loop over the completed futures. *)
Definition collect (f : future) : M unit :=
  let url := future_url f in
  match future_result f with
  | Done emails =>
      if truthy_list emails
      then modify (with_all_emails (λ s, s ∪ list_to_set emails)) ;;
           print (MsgScraped (length emails) url)
      else mret ()
  | Raised _ => print (MsgErrorScraping url)
  end.

(** Lines 108-119. *)
Definition parallel_scraping (sched : list nat) : M unit :=
  urls ← gets child_links_all;
  print (MsgStartParallel (length urls) max_workers) ;;
  futures ← submit_all urls;
  for_each (as_completed sched futures) collect.

(** Lines 122-126. *)
Definition save_results : M unit :=
  modify (with_output (λ _, Some [])) ;;
  writerow ["Email"] ;;
  emails ← gets all_emails;
  for_each (sorted (elements emails)) (λ email, writerow [email]).

(** Lines 128-129. *)
Definition report : M unit :=
  n ← gets (size ∘ all_emails);
  print (MsgFinished n) ;;
  print (MsgSaved output_file).

(** Lines 75-102: everything up to the end of the loop over the parent
    URLs. *)
Definition seed_phase (lines : list string) : M unit :=
  load_parent_urls lines ;;
  scrape_parents.

(** Lines 104-119: the child links that remain, scraped in parallel. *)
Definition child_phase (sched : list nat) : M unit :=
  remove_duplicates_and_visited ;;
  parallel_scraping sched.

(** The whole script, on the lines of the input file and a schedule of
    the worker pool. *)
Definition main (lines : list string) (sched : list nat) : M unit :=
  seed_phase lines ;;
  child_phase sched ;;
  save_results ;;
  report.

(** ** What a run reads off the web, as pure functions *)

(** The list [scrape_page] returns for [url]. *)
Definition scraped (url : string) : list string :=
  match web url ≫= page_source with
  | Some src => extract_emails src
  | None => []
  end.

(** The list [get_child_links] returns for [url]. *)
Definition child_links (url parent_domain : string) : list string :=
  match web url ≫= anchors with
  | Some hrefs => elements (link_set url parent_domain hrefs)
  | None => []
  end.

(** The value of line 98, when it has one. *)
Definition domain_of (parent_url : string) : option string :=
  rest ← PyStr.split parent_url "//" !! 1;
  PyStr.split rest "/" !! 0.

End Crawler.

(** A small web used in the examples below. *)
Definition demo_web (url : string) : option page :=
  if String.eqb url "http://example.com" then
    Some (Page (Some "Contact: a@example.com and b@EXAMPLE.com")
               (Some [Some "http://example.com/team"; None; Some "";
                      Some "http://other.org/x"; Some "http://example.com";
                      Some "http://example.com/team"]))
  else if String.eqb url "http://example.com/team" then
    Some (Page (Some "zed@example.com, a@example.com") (Some []))
  else None.

(** A second small web: a page with three child links, one of which does
    not load. *)
Definition staff_web (url : string) : option page :=
  if String.eqb url "http://example.org" then
    Some (Page (Some "Write to info@example.org")
               (Some [Some "http://example.org/a"; Some "http://example.org/b";
                      Some "http://example.org/c"]))
  else if String.eqb url "http://example.org/a" then
    Some (Page (Some "ann@example.org") (Some []))
  else if String.eqb url "http://example.org/c" then
    Some (Page (Some "cy@example.org, ann@example.org") (Some []))
  else None.

(** ** Notions used to state the properties *)

(** Every character of [s] is in the class [cls]. *)
Fixpoint all_in (cls : ascii → bool) (s : string) : Prop :=
  match s with
  | EmptyString => True
  | String c s' => cls c = true ∧ all_in cls s'
  end.

(** The language of a pattern. *)
Fixpoint matches (p : Re.pattern) (s : string) : Prop :=
  match p with
  | [] => s = EmptyString
  | Re.Lit c :: p' => ∃ s', s = String c s' ∧ matches p' s'
  | Re.AtLeast n cls :: p' =>
      ∃ s1 s2, s = s1 +:+ s2 ∧ n ≤ String.length s1 ∧ all_in cls s1 ∧ matches p' s2
  end.

(** The shape [localpart@domain.tld]. *)
Definition email_shape (e : string) : Prop :=
  ∃ localpart domain tld,
    e = localpart +:+ "@" +:+ domain +:+ "." +:+ tld ∧
    1 ≤ String.length localpart ∧ all_in cls_local localpart ∧
    1 ≤ String.length domain ∧ all_in cls_domain domain ∧
    2 ≤ String.length tld ∧ all_in cls_letter tld.

(** [needle] occurs in [hay]. *)
Definition substring_of (needle hay : string) : Prop :=
  ∃ before after, hay = before +:+ needle +:+ after.

(** Events that concern sessions: creation, navigation and release. *)
Definition session_event (e : event) : bool :=
  match e with
  | EvCreate _ | EvGet _ _ | EvQuit _ => true
  | EvSleep _ | EvPrint _ => false
  end.

Definition session_events (evs : list event) : list event :=
  filter (λ e, session_event e) evs.

(** The URLs a list of events navigates to. *)
Definition navigated (evs : list event) : list string :=
  omap (λ e, match e with EvGet _ url => Some url | _ => None end) evs.

(** The parent URLs of a run, as loaded from the lines of the input file
    and normalized by the loop over them. *)
Definition seeds_of (lines : list string) : list string :=
  normalize <$> filter (λ line, line ≠ "") (PyStr.strip <$> lines).

(** Strictly ascending code-point order on strings. *)
Definition str_lt (a b : string) : Prop := String.compare a b = Lt.

(** [e] is among the results of the futures [fs]. *)
Definition collected (fs : list future) (e : string) : Prop :=
  ∃ f emails, f ∈ fs ∧ future_result f = Done emails ∧ e ∈ emails.

(** [l] lists pieces of [s] that lie one after the other in [s], without
    overlap. *)
Inductive scattered : list string → string → Prop :=
| scattered_nil s : scattered [] s
| scattered_skip c l s : scattered l s → scattered l (String c s)
| scattered_match e l s : scattered l s → scattered (e :: l) (e +:+ s).

(** The session events of the loop over the parent URLs, given the URLs
    it visits and the number of the first session: each URL has a session
    of its own, navigated to it twice and released. *)
Fixpoint seed_sessions (d : nat) (urls : list string) : list event :=
  match urls with
  | [] => []
  | url :: urls' =>
      [EvCreate d; EvGet d url; EvGet d url; EvQuit d] ++ seed_sessions (S d) urls'
  end.

(** The session events of the workers as [submit_all] records them, task
    by task in the order of submission. *)
Fixpoint worker_sessions (d : nat) (urls : list string) : list event :=
  match urls with
  | [] => []
  | url :: urls' =>
      [EvCreate d; EvGet d url; EvQuit d] ++ worker_sessions (S d) urls'
  end.

(** * Properties *)

(** ** String primitives *)

Lemma append_cons c s t : String c s +:+ t = String c (s +:+ t).
Proof. reflexivity. Qed.

Lemma append_empty_r s : s +:+ "" = s.
Proof. induction s as [|c s IH]; [done|]. by rewrite append_cons, IH. Qed.

Lemma append_assoc s1 s2 s3 : (s1 +:+ s2) +:+ s3 = s1 +:+ s2 +:+ s3.
Proof. induction s1 as [|c s1 IH]; [done|]. by rewrite !append_cons, IH. Qed.

Lemma take_drop_add j m s :
  PyStr.take (j + m) s = PyStr.take j s +:+ PyStr.take m (PyStr.drop j s).
Proof.
  revert s. induction j as [|j IH]; intros s; [done|].
  destruct s as [|c s]; simpl.
  - by destruct m.
  - by rewrite IH, append_cons.
Qed.

Lemma span_take cls j s :
  j ≤ Re.span cls s →
  String.length (PyStr.take j s) = j ∧ all_in cls (PyStr.take j s).
Proof.
  revert s. induction j as [|j IH]; intros s Hj; [done|].
  destruct s as [|c s]; simpl in *; [lia|].
  destruct (cls c) eqn:Hc; [|lia].
  destruct (IH s) as [Hlen Hall]; [lia|].
  by rewrite Hlen.
Qed.

Lemma prefix_append needle after : String.prefix needle (needle +:+ after) = true.
Proof.
  induction needle as [|c needle IH]; [by destruct after|].
  rewrite append_cons. simpl. by destruct (ascii_dec c c).
Qed.

Lemma prefix_inv needle hay :
  String.prefix needle hay = true → ∃ after, hay = needle +:+ after.
Proof.
  revert hay. induction needle as [|c needle IH]; intros hay; [by exists hay|].
  destruct hay as [|c' hay]; simpl; [done|].
  destruct (ascii_dec c c') as [<-|]; [|done].
  intros [after ->]%IH. by exists after.
Qed.

(** [needle in hay] holds exactly when [needle] occurs in [hay]. *)
Lemma contains_spec needle hay :
  PyStr.contains needle hay = true ↔ substring_of needle hay.
Proof.
  split.
  - induction hay as [|c hay IH]; cbn [PyStr.contains].
    + rewrite orb_false_r. intros [after ->]%prefix_inv. by exists "", after.
    + intros [[after ->]%prefix_inv|(before & after & ->)%IH]%orb_true_iff.
      * by exists "", after.
      * by exists (String c before), after.
  - intros (before & after & ->).
    induction before as [|c before IH].
    + change ("" +:+ needle +:+ after) with (needle +:+ after).
      pose proof (prefix_append needle after) as Hpre.
      destruct (needle +:+ after); cbn [PyStr.contains]; by rewrite Hpre.
    + rewrite append_cons. cbn [PyStr.contains]. rewrite IH. apply orb_true_r.
Qed.

Lemma split_go_cons sep skip cur s :
  ∃ piece pieces, PyStr.split_go sep skip cur s = piece :: pieces.
Proof.
  revert skip cur. induction s as [|c s IH]; intros skip cur;
    cbn [PyStr.split_go]; [eauto|].
  destruct skip; [|by apply IH].
  destruct (String.prefix sep (String c s)); [eauto|by apply IH].
Qed.

Lemma split_go_absent sep cur s :
  PyStr.contains sep s = false → PyStr.split_go sep 0 cur s = [cur +:+ s].
Proof.
  revert cur. induction s as [|c s IH]; intros cur;
    cbn [PyStr.split_go PyStr.contains].
  - by rewrite append_empty_r.
  - intros [-> Hs]%orb_false_elim. by rewrite IH, append_assoc.
Qed.

Lemma split_go_present c sep cur s :
  PyStr.contains (String c sep) s = true →
  2 ≤ length (PyStr.split_go (String c sep) 0 cur s).
Proof.
  revert cur. induction s as [|c' s IH]; intros cur; [done|].
  cbn [PyStr.contains PyStr.split_go].
  destruct (String.prefix _ _); simpl.
  - intros _. destruct (split_go_cons (String c sep) (String.length sep - 0)
                          "" s) as (? & ? & ->). simpl; lia.
  - apply IH.
Qed.

(** ** The regular expression search *)

Lemma give_back_Some continue lo k r :
  Re.give_back continue lo k = Some r →
  ∃ j m, lo ≤ j ≤ k ∧ continue j = Some m ∧ r = j + m.
Proof.
  induction k as [|k IH]; simpl.
  - destruct lo; simpl; [|done].
    destruct (continue 0) as [m|] eqn:Hc; [|done].
    intros [= <-]. exists 0, m. auto with lia.
  - destruct (S k <? lo) eqn:Hlt; [done|].
    apply Nat.ltb_ge in Hlt.
    destruct (continue (S k)) as [m|] eqn:Hc.
    + intros [= <-]. exists (S k), m. auto with lia.
    + intros (j & m & ? & ? & ?)%IH. exists j, m. auto with lia.
Qed.

Lemma match_here_sound p s m :
  Re.match_here p s = Some m → matches p (PyStr.take m s).
Proof.
  revert s m. induction p as [|[c|n cls] p IH]; intros s m; simpl.
  - by intros [= <-].
  - destruct s as [|c' s]; [done|].
    destruct (Ascii.eqb_spec c c') as [<-|]; [|done].
    destruct (Re.match_here p s) as [m'|] eqn:Hm; [|done].
    intros [= <-]. simpl. eauto.
  - intros (j & m' & [Hlo Hhi] & Hm & ->)%give_back_Some.
    destruct (span_take cls j s Hhi) as [Hlen Hall].
    exists (PyStr.take j s), (PyStr.take m' (PyStr.drop j s)).
    rewrite take_drop_add, Hlen. eauto.
Qed.

Lemma findall_go_sound p skip s e :
  e ∈ Re.findall_go p skip s →
  ∃ s' m, Re.match_here p s' = Some m ∧ e = PyStr.take m s'.
Proof.
  revert skip. induction s as [|c s IH]; intros skip; simpl.
  - destruct skip; [|by intros ?%elem_of_nil].
    destruct (Re.match_here p EmptyString) as [m|] eqn:Hm;
      [|by intros ?%elem_of_nil].
    intros ->%list_elem_of_singleton. exists EmptyString, m. by destruct m.
  - destruct skip as [|k]; [|by apply IH].
    destruct (Re.match_here p (String c s)) as [m|] eqn:Hm; [|by apply IH].
    intros [->|?]%elem_of_cons; eauto.
Qed.

Lemma matches_email_shape e : matches email_pattern e → email_shape e.
Proof.
  intros (lp & s1 & -> & Hlp & Hlpc & s2 & -> & dom & s3 & -> & Hdom & Hdomc
          & tld' & -> & tld & s4 & -> & Htld & Htldc & ->).
  exists lp, dom, tld. repeat split; try done.
  by rewrite append_empty_r.
Qed.

(** C7: every string [extract_emails] returns has the shape
    localpart@domain.tld, with a non-empty local part over letters, digits
    and [._%+-], a non-empty domain over letters, digits and [.-], and a
    top-level part of at least two letters.  The extractor is a total
    function; on a text without a match (the empty text, for one) the
    sequence it returns is empty. *)
Theorem extract_emails_shape (text : string) :
  Forall email_shape (extract_emails text) ∧ extract_emails "" = [].
Proof.
  split; [|done].
  apply Forall_forall. intros e (s' & m & Hm & ->)%findall_go_sound.
  by apply matches_email_shape, match_here_sound.
Qed.

(** ** Running the helpers *)

(** Reduce the monadic plumbing and the field accesses, nothing else. *)
Ltac fields :=
  unfold with_all_emails, with_visited_links, with_parent_urls,
    with_child_links_all, with_sessions, with_trace, with_output in *;
  cbn [all_emails visited_links parent_urls child_links_all sessions trace
       output did current page_source anchors future_url future_result
       fst snd from_option option_bind option_fmap option_map compose] in *.

Ltac run :=
  unfold driver_quit, sleep, print, emit, mbind, M_bind, mret, M_ret, raise,
    gets, modify; fields.

Lemma session_events_app evs1 evs2 :
  session_events (evs1 ++ evs2) = session_events evs1 ++ session_events evs2.
Proof. apply filter_app. Qed.

Lemma navigated_app evs1 evs2 :
  navigated (evs1 ++ evs2) = navigated evs1 ++ navigated evs2.
Proof. apply omap_app. Qed.

Lemma navigated_session_events evs :
  navigated (session_events evs) = navigated evs.
Proof.
  induction evs as [|[] evs IH]; simpl; try done; by f_equal.
Qed.

(** Line 98 has a value exactly when the URL contains [//]. *)
Lemma domain_of_is_Some url :
  is_Some (domain_of url) ↔ PyStr.contains "//" url = true.
Proof.
  unfold domain_of, PyStr.split. split.
  - intros [dom Hdom]. destruct (PyStr.contains "//" url) eqn:Hc; [done|].
    by rewrite split_go_absent in Hdom.
  - intros Hc%(split_go_present _ _ "").
    destruct (PyStr.split_go "//" 0 "" url) as [|? [|rest ?]]; simpl in *; try lia.
    destruct (split_go_cons "/" 0 "" rest) as (? & ? & ->). by eexists.
Qed.

Lemma domain_of_None url :
  domain_of url = None ↔ PyStr.contains "//" url = false.
Proof.
  rewrite eq_None_not_Some, domain_of_is_Some. by destruct (PyStr.contains _ _).
Qed.

Lemma normalize_contains_slashes line :
  PyStr.startswith line "http" = false →
  PyStr.contains "//" (normalize line) = true.
Proof.
  unfold normalize. intros ->. apply contains_spec.
  by exists "http:", line.
Qed.

Lemma parent_domain_of_run url st :
  parent_domain_of url st
  = (st, from_option Done (Raised IndexError) (domain_of url)).
Proof.
  unfold parent_domain_of, domain_of, subscript. run.
  destruct (PyStr.split url "//" !! 1) as [rest|]; fields; [|done].
  by destruct (PyStr.split rest "/" !! 0).
Qed.

Section Helpers.

Variable web : string → option page.

Lemma scrape_page_run drv url st :
  ∃ evs cur,
    scrape_page web drv url st
    = (with_trace (λ t, t ++ evs) st, Done (Driver (did drv) cur, scraped web url))
    ∧ session_events evs = [EvGet (did drv) url].
Proof.
  destruct drv as [d cur0].
  unfold scrape_page, driver_get, scraped. run.
  destruct (web url) as [[[src|] hrefs]|]; simpl;
    rewrite <-?(assoc_L (++)); do 2 eexists; (split; [reflexivity|done]).
Qed.

Lemma get_child_links_run drv url dom st :
  ∃ evs cur,
    get_child_links web drv url dom st
    = (with_trace (λ t, t ++ evs) st,
       Done (Driver (did drv) cur, child_links web url dom))
    ∧ session_events evs = [EvGet (did drv) url].
Proof.
  destruct drv as [d cur0].
  unfold get_child_links, driver_get, child_links. run.
  destruct (web url) as [[src [hrefs|]]|]; simpl;
    rewrite <-?(assoc_L (++)); do 2 eexists; (split; [reflexivity|done]).
Qed.

Lemma scrape_worker_run url st :
  ∃ evs,
    scrape_worker web url st
    = (with_trace (λ t, t ++ evs) (with_sessions S st), Done (scraped web url))
    ∧ session_events evs
      = [EvCreate (sessions st); EvGet (sessions st) url; EvQuit (sessions st)].
Proof.
  unfold scrape_worker, create_driver. run.
  edestruct scrape_page_run as (evs & cur & -> & Hevs). run.
  eexists; split; [rewrite <-?(assoc_L (++)); reflexivity|].
  by rewrite !session_events_app, Hevs.
Qed.

(** One iteration of the loop over the parent URLs: what it leaves
    behind when line 98 has a value, and when it raises. *)
Lemma scrape_parent_run parent_url st :
  let url := normalize parent_url in
  let d := sessions st in
  ∃ evs,
    match domain_of url with
    | Some dom =>
        scrape_parent web parent_url st
        = (State (all_emails st ∪ list_to_set (scraped web url))
                 (visited_links st ∪ {[url]}) (parent_urls st)
                 (child_links_all st ++ child_links web url dom)
                 (S d) (trace st ++ evs) (output st), Done ())
        ∧ session_events evs = [EvCreate d; EvGet d url; EvGet d url; EvQuit d]
    | None =>
        scrape_parent web parent_url st
        = (State (all_emails st ∪ list_to_set (scraped web url))
                 (visited_links st ∪ {[url]}) (parent_urls st)
                 (child_links_all st)
                 (S d) (trace st ++ evs) (output st), Raised IndexError)
        ∧ session_events evs = [EvCreate d; EvGet d url]
    end.
Proof.
  intros url d.
  assert (∀ st0 : state,
    (if truthy_list (scraped web url)
     then modify (with_all_emails (λ s, s ∪ list_to_set (scraped web url)))
     else mret ()) st0
    = (with_all_emails (λ s, s ∪ list_to_set (scraped web url)) st0, Done ()))
    as Hupdate.
  { intros [e v p c n t o]. destruct (scraped web url); run; [|done].
    by rewrite list_to_set_nil, (right_id_L ∅ (∪)). }
  destruct (domain_of url) as [dom|] eqn:Hdom;
    unfold scrape_parent, create_driver; fold url; run;
    edestruct scrape_page_run as (evs1 & cur1 & -> & Hevs1);
    rewrite Hupdate, parent_domain_of_run, Hdom; run.
  - edestruct get_child_links_run as (evs2 & cur2 & -> & Hevs2). run.
    eexists. split; [rewrite <-?(assoc_L (++)); reflexivity|].
    by rewrite !session_events_app, Hevs1, Hevs2.
  - eexists. split; [rewrite <-?(assoc_L (++)); reflexivity|].
    by rewrite !session_events_app, Hevs1.
Qed.

End Helpers.

(** ** Running the phases of the script *)

Lemma truthy_str_spec s : truthy_str s = true ↔ s ≠ "".
Proof.
  unfold truthy_str. destruct (String.eqb_spec s ""); split; naive_solver.
Qed.

(** Lines 76-81 append the stripped, non-blank lines to [parent_urls]. *)
Lemma load_parent_urls_run lines st :
  load_parent_urls lines st
  = (with_parent_urls
       (λ l, l ++ filter (λ line, line ≠ "") (PyStr.strip <$> lines)) st,
     Done ()).
Proof.
  unfold load_parent_urls. revert st.
  induction lines as [|line lines IH]; intros st;
    cbn [for_each fmap list_fmap].
  - run. rewrite filter_nil, (right_id_L [] (++)). by destruct st.
  - rewrite filter_cons.
    pose proof (truthy_str_spec (PyStr.strip line)) as Hspec.
    unfold mbind, M_bind.
    destruct (truthy_str (PyStr.strip line)); run; rewrite IH; fields.
    + rewrite decide_True by by apply Hspec.
      by rewrite <-(assoc_L (++)).
    + rewrite decide_False; [done|]. by intros ?%Hspec.
Qed.

Lemma collected_nil e : collected [] e ↔ False.
Proof.
  split; [|done]. by intros (f & emails & ?%elem_of_nil & _).
Qed.

Lemma collected_cons f fs e :
  collected (f :: fs) e ↔
  match future_result f with
  | Done emails => e ∈ emails
  | Raised _ => False
  end ∨ collected fs e.
Proof.
  unfold collected. split.
  - intros (g & emails & [->|Hg]%elem_of_cons & Hres & He).
    + left. by rewrite Hres.
    + right. by exists g, emails.
  - intros [Hf|(g & emails & Hg & Hres & He)].
    + destruct (future_result f) as [emails|] eqn:Hres; [|done].
      exists f, emails. split_and!; [left|done..].
    + exists g, emails. split_and!; [by right|done..].
Qed.

Lemma collected_Permutation fs1 fs2 e :
  fs1 ≡ₚ fs2 → collected fs1 e ↔ collected fs2 e.
Proof.
  intros Hperm. unfold collected.
  by setoid_rewrite (elem_of_Permutation_proper _ _ _ Hperm).
Qed.

(** ** Completion order *)

(** Whatever the schedule, the futures come out as a permutation of the
    submitted ones ... *)
Lemma as_completed_Permutation {A} (sched : list nat) (pending : list A) :
  as_completed sched pending ≡ₚ pending.
Proof.
  revert pending. induction sched as [|i sched IH]; intros pending; simpl; [done|].
  destruct (pending !! i) as [x|] eqn:Hi; [|done].
  by rewrite IH, <-delete_Permutation.
Qed.

(** ... and every permutation is the completion order of some schedule. *)
Lemma as_completed_any_order {A} (pending order : list A) :
  order ≡ₚ pending → ∃ sched, as_completed sched pending = order.
Proof.
  revert pending. induction order as [|x order IH]; intros pending Hperm.
  - apply Permutation_nil_l in Hperm as ->. by exists [].
  - assert (x ∈ pending) as [i Hi]%list_elem_of_lookup_1
      by (rewrite <-Hperm; left).
    destruct (IH (delete i pending)) as [sched <-].
    { apply (inj (cons x)). by rewrite Hperm, <-delete_Permutation. }
    exists (i :: sched). simpl. by rewrite Hi.
Qed.

Lemma bind_done {A B} (m : M A) (f : A → M B) st st' a :
  m st = (st', Done a) → (m ≫= f) st = f a st'.
Proof. unfold mbind, M_bind. by intros ->. Qed.

Lemma bind_raised {A B} (m : M A) (f : A → M B) st st' e :
  m st = (st', Raised e) → (m ≫= f) st = (st', Raised e).
Proof. unfold mbind, M_bind. by intros ->. Qed.

(** Line 105 keeps each child link once, and only if it is not visited. *)
Lemma remaining_links_spec links visited :
  NoDup (remaining_links links visited)
  ∧ ∀ link, link ∈ remaining_links links visited ↔
            link ∈ links ∧ link ∉ visited.
Proof.
  unfold remaining_links. split.
  - apply NoDup_filter, NoDup_elements.
  - intros link.
    rewrite list_elem_of_filter, elem_of_elements, elem_of_list_to_set. tauto.
Qed.

(** [sorted] on the elements of a set: strictly ascending, same elements. *)
Lemma StronglySorted_strict {A} (R R' : relation A) l :
  (∀ a b, R a b → a ≠ b → R' a b) →
  StronglySorted R l → NoDup l → StronglySorted R' l.
Proof.
  intros Hstrict. induction 1 as [|x l _ IH Hx]; [constructor|].
  intros [Hnotin Hnodup]%NoDup_cons. constructor; [by apply IH|].
  apply Forall_forall. intros y Hy. apply Hstrict.
  - by eapply Forall_forall in Hx.
  - by intros ->.
Qed.

Lemma str_le_ne_lt a b : String.le a b → a ≠ b → str_lt a b.
Proof.
  unfold String.le, String.leb, str_lt. intros Hle Hne.
  destruct (String.compare a b) eqn:Hcmp; [|done..].
  by apply String.compare_eq_iff in Hcmp.
Qed.

Lemma sorted_elements (s : gset string) :
  StronglySorted str_lt (sorted (elements s))
  ∧ NoDup (sorted (elements s))
  ∧ ∀ e, e ∈ sorted (elements s) ↔ e ∈ s.
Proof.
  unfold sorted.
  assert (NoDup (merge_sort String.le (elements s))) as Hnodup.
  { rewrite merge_sort_Permutation. apply NoDup_elements. }
  split_and!; [|done|].
  - eapply StronglySorted_strict;
      [apply str_le_ne_lt|apply StronglySorted_merge_sort; apply _|done].
  - intros e. by rewrite merge_sort_Permutation, elem_of_elements.
Qed.

(** Lines 122-126 write the header and then one row per email, sorted. *)
Lemma writerows_run rows st prev :
  output st = Some prev →
  for_each rows (λ email, writerow [email]) st
  = (with_output (λ _, Some (prev ++ ((λ email, [email]) <$> rows))) st, Done ()).
Proof.
  revert st prev. induction rows as [|row rows IH]; intros st prev Hout;
    cbn [for_each fmap list_fmap].
  - run. rewrite (right_id_L [] (++)), <-Hout. by destruct st.
  - unfold mbind at 1, M_bind, writerow at 1. run.
    erewrite IH; fields; [|by rewrite Hout].
    by rewrite <-(assoc_L (++)).
Qed.

Lemma save_results_run st :
  save_results st
  = (with_output
       (λ _, Some (["Email"] :: ((λ email, [email]) <$> sorted (elements (all_emails st)))))
       st, Done ()).
Proof.
  unfold save_results. run.
  change (writerow ["Email"]) with
    (modify (with_output (λ o, Some (default [] o ++ [["Email"]])))).
  run. erewrite writerows_run; [|done]. done.
Qed.

Section Phases.

Variable web : string → option page.

(** The loop over the parent URLs when line 98 has a value for each. *)
Lemma scrape_parents_done seeds st :
  Forall (λ s, PyStr.contains "//" (normalize s) = true) seeds →
  ∃ st' evs,
    for_each seeds (scrape_parent web) st = (st', Done ())
    ∧ (∀ e, e ∈ all_emails st' ↔
            e ∈ all_emails st ∨
            ∃ s, s ∈ seeds ∧ e ∈ scraped web (normalize s))
    ∧ visited_links st' = visited_links st ∪ list_to_set (normalize <$> seeds)
    ∧ (∀ link, link ∈ child_links_all st' ↔
               link ∈ child_links_all st ∨
               ∃ s dom, s ∈ seeds ∧ domain_of (normalize s) = Some dom
                        ∧ link ∈ child_links web (normalize s) dom)
    ∧ parent_urls st' = parent_urls st
    ∧ output st' = output st
    ∧ trace st' = trace st ++ evs
    ∧ navigated evs = seeds ≫= (λ s, [normalize s; normalize s]).
Proof.
  intros Hseeds. revert st.
  induction Hseeds as [|s seeds Hs _ IH]; intros st; cbn [for_each].
  { exists st, []. run. rewrite (right_id_L [] (++)).
    split_and!; try done; [set_solver..]. }
  unfold mbind at 1, M_bind.
  destruct (scrape_parent_run web s st) as [evs1 Hrun].
  apply domain_of_is_Some in Hs as [dom Hdom]. rewrite Hdom in Hrun.
  destruct Hrun as [-> Hevs1].
  edestruct IH as (st' & evs2 & -> & Hemails & Hvisited & Hlinks & Hparents
                   & Houtput & Htrace & Hevs2).
  fields. exists st', (evs1 ++ evs2). split_and!; try done.
  - intros e. rewrite Hemails, elem_of_union, elem_of_list_to_set.
    set_solver.
  - rewrite Hvisited. set_solver.
  - intros link. rewrite Hlinks, elem_of_app. split.
    + intros [[?|?]|(s' & dom' & ? & ? & ?)]; [by left|right..].
      * exists s, dom. set_solver.
      * exists s', dom'. set_solver.
    + intros [?|(s' & dom' & [->|?]%elem_of_cons & ? & ?)];
        [by left; left| |right; by exists s', dom'].
      left; right. congruence.
  - by rewrite Htrace, (assoc_L (++)).
  - rewrite navigated_app, Hevs2, <-navigated_session_events, Hevs1. done.
Qed.

(** The loop over the parent URLs when line 98 raises for one of them:
    the exception ends the loop, nothing has been written. *)
Lemma scrape_parents_raise seeds st :
  Exists (λ s, PyStr.contains "//" (normalize s) = false) seeds →
  ∃ st',
    for_each seeds (scrape_parent web) st = (st', Raised IndexError)
    ∧ output st' = output st.
Proof.
  intros Hseeds. revert st.
  induction Hseeds as [s seeds Hs|s seeds _ IH]; intros st; cbn [for_each];
    unfold mbind, M_bind;
    destruct (scrape_parent_run web s st) as [evs1 Hrun].
  - apply domain_of_None in Hs. rewrite Hs in Hrun.
    destruct Hrun as [-> _]. eauto.
  - destruct (domain_of (normalize s)); destruct Hrun as [-> _]; [|eauto].
    edestruct IH as (st' & -> & Hout). eauto.
Qed.

(** Submitting the tasks: one worker per URL, each with a session of
    its own; no module-level set or list is touched. *)
Lemma submit_all_run urls st :
  ∃ evs,
    submit_all web urls st
    = (with_trace (λ t, t ++ evs) (with_sessions (λ n, length urls + n) st),
       Done ((λ url, Future url (Done (scraped web url))) <$> urls))
    ∧ navigated evs = urls.
Proof.
  revert st. induction urls as [|url urls IH]; intros st;
    cbn [submit_all fmap list_fmap length].
  { exists []. run. rewrite (right_id_L [] (++)). by destruct st. }
  unfold mbind at 1, M_bind, submit.
  destruct (scrape_worker_run web url st) as (evs1 & -> & Hevs1).
  unfold mbind at 1, M_bind.
  destruct (IH (with_trace (λ t, t ++ evs1) (with_sessions S st)))
    as (evs2 & -> & Hevs2).
  exists (evs1 ++ evs2). split.
  - run. by rewrite <-(assoc_L (++)), Nat.add_succ_r.
  - by rewrite navigated_app, Hevs2, <-navigated_session_events, Hevs1.
Qed.

(** The loop over the completed futures only adds the results of the
    tasks to [all_emails] and prints. *)
Lemma collect_all_run (fs : list future) st :
  ∃ st' evs,
    for_each fs collect st = (st', Done ())
    ∧ (∀ e, e ∈ all_emails st' ↔ e ∈ all_emails st ∨ collected fs e)
    ∧ visited_links st' = visited_links st
    ∧ parent_urls st' = parent_urls st
    ∧ child_links_all st' = child_links_all st
    ∧ sessions st' = sessions st
    ∧ output st' = output st
    ∧ trace st' = trace st ++ evs
    ∧ session_events evs = [].
Proof.
  revert st. induction fs as [|f fs IH]; intros st; cbn [for_each].
  { exists st, []. run. rewrite (right_id_L [] (++)).
    split_and!; try done. intros e. rewrite collected_nil. tauto. }
  unfold mbind at 1, M_bind, collect at 1.
  destruct f as [url [emails|err]]; fields.
  - destruct emails as [|email emails]; cbn [truthy_list]; run.
    + destruct (IH st) as (st' & evs & -> & Hemails & ? & ? & ? & ? & ? & ? & ?).
      exists st', evs. split_and!; try done.
      intros e. rewrite Hemails, collected_cons; fields.
      rewrite elem_of_nil. tauto.
    + edestruct IH as (st' & evs & -> & Hemails & ? & ? & ? & ? & ? & Htrace & ?).
      fields. eexists st', (_ :: evs). split_and!; try done.
      * intros e. rewrite Hemails, collected_cons; fields.
        rewrite elem_of_union, elem_of_list_to_set. tauto.
      * by rewrite Htrace, <-(assoc_L (++)).
      * done.
  - run.
    edestruct IH as (st' & evs & -> & Hemails & ? & ? & ? & ? & ? & Htrace & ?).
    fields. eexists st', (_ :: evs). split_and!; try done.
    + intros e. rewrite Hemails, collected_cons; fields. tauto.
    + by rewrite Htrace, <-(assoc_L (++)).
    + done.
Qed.

(** Lines 75-102, when line 98 has a value for every parent URL. *)
Lemma seed_phase_done lines :
  Forall (λ url, PyStr.contains "//" url = true) (seeds_of lines) →
  ∃ st1,
    seed_phase web lines initial = (st1, Done ())
    ∧ (∀ e, e ∈ all_emails st1 ↔
            ∃ url, url ∈ seeds_of lines ∧ e ∈ scraped web url)
    ∧ visited_links st1 = list_to_set (seeds_of lines)
    ∧ (∀ link, link ∈ child_links_all st1 ↔
               ∃ url dom, url ∈ seeds_of lines ∧ domain_of url = Some dom
                          ∧ link ∈ child_links web url dom)
    ∧ output st1 = None
    ∧ navigated (trace st1) = seeds_of lines ≫= (λ url, [url; url]).
Proof.
  unfold seeds_of. set (raw := filter _ _). intros Hseeds.
  apply Forall_fmap in Hseeds.
  unfold seed_phase, scrape_parents, initial.
  erewrite bind_done by apply load_parent_urls_run. fold raw. run.
  edestruct (scrape_parents_done raw) as
    (st1 & evs & -> & Hemails & Hvisited & Hlinks & _ & Hout & Htrace & Hevs);
    [done|].
  fields. exists st1. split_and!; try done.
  - intros e. rewrite Hemails, elem_of_empty. split.
    + intros [[]|(s & ? & ?)]. exists (normalize s).
      split; [|done]. by apply list_elem_of_fmap_2.
    + intros (url & (s & -> & ?)%list_elem_of_fmap & ?). right. by exists s.
  - rewrite Hvisited. by rewrite (left_id_L ∅ (∪)).
  - intros link. rewrite Hlinks, elem_of_nil. split.
    + intros [[]|(s & dom & ? & ? & ?)]. exists (normalize s), dom.
      split_and!; [|done..]. by apply list_elem_of_fmap_2.
    + intros (url & dom & (s & -> & ?)%list_elem_of_fmap & ? & ?).
      right. by exists s, dom.
  - rewrite Htrace. change ([] ++ evs) with evs. rewrite Hevs.
    clear. induction raw as [|s raw IH]; [done|].
    cbn [fmap list_fmap]. rewrite !bind_cons, IH. done.
Qed.

(** Lines 75-102, when line 98 raises for some parent URL. *)
Lemma seed_phase_raise lines :
  Exists (λ url, PyStr.contains "//" url = false) (seeds_of lines) →
  ∃ st1, seed_phase web lines initial = (st1, Raised IndexError)
         ∧ output st1 = None.
Proof.
  unfold seeds_of. set (raw := filter _ _). intros Hseeds.
  apply Exists_fmap in Hseeds.
  unfold seed_phase, scrape_parents, initial.
  erewrite bind_done by apply load_parent_urls_run. fold raw. run.
  edestruct (scrape_parents_raise raw) as (st1 & -> & Hout); [done|].
  by exists st1.
Qed.

(** Lines 104-119, from any state. *)
Lemma child_phase_run sched st1 :
  ∃ st2 evs,
    child_phase web sched st1 = (st2, Done ())
    ∧ child_links_all st2
      = remaining_links (child_links_all st1) (visited_links st1)
    ∧ (∀ e, e ∈ all_emails st2 ↔
            e ∈ all_emails st1 ∨
            ∃ link, link ∈ child_links_all st2 ∧ e ∈ scraped web link)
    ∧ visited_links st2 = visited_links st1
    ∧ parent_urls st2 = parent_urls st1
    ∧ output st2 = output st1
    ∧ trace st2 = trace st1 ++ evs
    ∧ navigated evs = child_links_all st2.
Proof.
  unfold child_phase, remove_duplicates_and_visited, parallel_scraping. run.
  set (urls := remaining_links _ _).
  edestruct (submit_all_run urls) as (evs1 & -> & Hevs1). fields.
  edestruct (collect_all_run (as_completed sched
               ((λ url, Future url (Done (scraped web url))) <$> urls)))
    as (st2 & evs2 & -> & Hemails & Hvisited & Hparents & Hlinks & _ & Hout
        & Htrace & Hevs2).
  fields. exists st2. eexists. split_and!; try done.
  - intros e. rewrite Hemails, Hlinks.
    rewrite (collected_Permutation _ _ _ (as_completed_Permutation _ _)).
    apply or_iff_compat_l. unfold collected. split.
    + intros (f & emails & (url & -> & ?)%list_elem_of_fmap & [= <-] & ?).
      by exists url.
    + intros (url & ? & ?). exists (Future url (Done (scraped web url))).
      eexists. split_and!; [|done..].
      apply list_elem_of_fmap. by exists url.
  - rewrite Htrace, <-!(assoc_L (++)). reflexivity.
  - rewrite Hlinks, !navigated_app, Hevs1.
    rewrite <-(navigated_session_events evs2), Hevs2.
    exact (right_id_L [] (++) urls).
Qed.

(** Lines 121-129, from any state. *)
Lemma save_and_report_run st2 :
  ∃ st,
    (save_results ;; report) st2 = (st, Done ())
    ∧ all_emails st = all_emails st2
    ∧ visited_links st = visited_links st2
    ∧ child_links_all st = child_links_all st2
    ∧ output st
      = Some (["Email"]
              :: ((λ email, [email]) <$> sorted (elements (all_emails st2)))).
Proof.
  erewrite bind_done by apply save_results_run.
  unfold report. run. by eexists.
Qed.

End Phases.


(** ** Child links of a page *)

Lemma keep_link_spec url dom href :
  keep_link url dom (Some href) = true ↔
  href ≠ "" ∧ substring_of dom href ∧ href ≠ url.
Proof.
  unfold keep_link.
  rewrite !andb_true_iff, negb_true_iff, truthy_str_spec, contains_spec.
  destruct (String.eqb_spec href url); naive_solver.
Qed.

Lemma link_set_spec url dom hrefs href :
  href ∈ link_set url dom hrefs ↔
  Some href ∈ hrefs ∧ keep_link url dom (Some href) = true.
Proof.
  unfold link_set.
  assert (∀ acc : gset string,
    href ∈ foldl (λ links h, if keep_link url dom h
                             then links ∪ from_option singleton ∅ h
                             else links) acc hrefs
    ↔ href ∈ acc ∨ (Some href ∈ hrefs ∧ keep_link url dom (Some href) = true))
    as Hfold.
  { induction hrefs as [|h hrefs IH]; intros acc; cbn [foldl].
    - rewrite elem_of_nil. tauto.
    - rewrite IH, elem_of_cons.
      destruct (keep_link url dom h) eqn:Hkeep.
      + destruct h as [h|]; [|done]. cbn [from_option].
        rewrite elem_of_union, elem_of_singleton. split.
        * intros [[? | ->] | [? ?]]; auto.
        * intros [?|[[Heq|?] ?]]; auto.
          injection Heq as ->. auto.
      + split; [tauto|].
        intros [?|[[Heq|?] ?]]; auto. congruence. }
  rewrite Hfold, elem_of_empty. tauto.
Qed.

(** C5: [get_child_links] always returns a list; it has no repetition,
    and a string is in it exactly when it is the [href] of some [<a>]
    element of the rendered page, is not empty, contains the parent
    domain as a substring and differs from the URL of the page.  (When the
    page cannot be rendered there is no [href] and the list is empty.) *)
Theorem get_child_links_exact (web : string → option page) (drv : driver)
    (url parent_domain : string) (st : state) :
  ∃ st' drv' links,
    get_child_links web drv url parent_domain st = (st', Done (drv', links))
    ∧ NoDup links
    ∧ ∀ href, href ∈ links ↔
        (∃ hrefs, web url ≫= anchors = Some hrefs ∧ Some href ∈ hrefs)
        ∧ href ≠ "" ∧ substring_of parent_domain href ∧ href ≠ url.
Proof.
  destruct (get_child_links_run web drv url parent_domain st)
    as (evs & cur & -> & _).
  do 3 eexists. split; [done|]. unfold child_links.
  destruct (web url ≫= anchors) as [hrefs|]; split.
  - apply NoDup_elements.
  - intros href.
    rewrite elem_of_elements, link_set_spec, keep_link_spec. naive_solver.
  - constructor.
  - intros href. rewrite elem_of_nil. naive_solver.
Qed.

(** ** The run as a whole *)

Lemma main_done web lines sched st1 st2 st :
  seed_phase web lines initial = (st1, Done ()) →
  child_phase web sched st1 = (st2, Done ()) →
  (save_results ;; report) st2 = (st, Done ()) →
  main web lines sched initial = (st, Done ()).
Proof.
  intros Hseed Hchild Hsave. unfold main.
  erewrite bind_done by done. by erewrite bind_done by done.
Qed.

(** C1: a run in which every parent URL has its [//] ends normally, and
    its final [all_emails] holds exactly the emails scraped from the
    parent pages and from the child links of the parent pages that are
    not themselves parent URLs (the visited set).  The set does not depend
    on the schedule: under any other completion order of the tasks the run
    ends with the same set. *)
Theorem final_emails_union (web : string → option page) (lines : list string)
    (sched : list nat) :
  Forall (λ url, PyStr.contains "//" url = true) (seeds_of lines) →
  ∃ st,
    main web lines sched initial = (st, Done ())
    ∧ (∀ e, e ∈ all_emails st ↔
         ((∃ url, url ∈ seeds_of lines ∧ e ∈ scraped web url)
          ∨ (∃ url dom link,
               url ∈ seeds_of lines ∧ domain_of url = Some dom
               ∧ link ∈ child_links web url dom
               ∧ (link ∉ seeds_of lines)
               ∧ e ∈ scraped web link)))
    ∧ (∀ sched',
         ∃ st', main web lines sched' initial = (st', Done ())
                ∧ all_emails st' = all_emails st).
Proof.
  intros Hseeds.
  destruct (seed_phase_done web lines Hseeds)
    as (st1 & Hseed & Hemails1 & Hvisited & Hlinks1 & _).
  assert (∀ sched0, ∃ st0,
    main web lines sched0 initial = (st0, Done ())
    ∧ ∀ e, e ∈ all_emails st0 ↔
         ((∃ url, url ∈ seeds_of lines ∧ e ∈ scraped web url)
          ∨ (∃ url dom link,
               url ∈ seeds_of lines ∧ domain_of url = Some dom
               ∧ link ∈ child_links web url dom
               ∧ (link ∉ seeds_of lines)
               ∧ e ∈ scraped web link))) as Hany.
  { intros sched0.
    destruct (child_phase_run web sched0 st1)
      as (st2 & evs & Hchild & Hlinks2 & Hemails2 & _).
    destruct (save_and_report_run st2) as (st0 & Hsave & Hemails & _).
    exists st0. split; [by eapply main_done|].
    intros e. rewrite Hemails, Hemails2, Hemails1, Hlinks2.
    apply or_iff_compat_l. split.
    - intros (link & [Hlink Hfresh]%remaining_links_spec & He).
      apply Hlinks1 in Hlink as (url & dom & ? & ? & ?).
      exists url, dom, link. split_and!; try done.
      by rewrite Hvisited, elem_of_list_to_set in Hfresh.
    - intros (url & dom & link & ? & ? & ? & Hfresh & ?).
      exists link. split; [|done]. apply remaining_links_spec. split.
      + apply Hlinks1. by exists url, dom.
      + by rewrite Hvisited, elem_of_list_to_set. }
  destruct (Hany sched) as (st & Hmain & Hst).
  exists st. split_and!; [done..|].
  intros sched'. destruct (Hany sched') as (st' & Hmain' & Hst').
  exists st'. split; [done|].
  apply set_eq. intros e. by rewrite Hst, Hst'.
Qed.

(** C6: in a run in which every parent URL has its [//], the URLs marked
    visited by the loop over the parent URLs are the parent URLs; the
    tasks of the child phase are the child links collected by that loop,
    each once, without the visited ones; and the navigations of the child
    phase are, in some order, those to the URLs of its tasks, one each: so
    none goes to a visited URL. *)
Theorem visited_never_refetched (web : string → option page)
    (lines : list string) (sched : list nat) :
  Forall (λ url, PyStr.contains "//" url = true) (seeds_of lines) →
  ∃ st1 st2 evs,
    seed_phase web lines initial = (st1, Done ())
    ∧ child_phase web sched st1 = (st2, Done ())
    ∧ visited_links st1 = list_to_set (seeds_of lines)
    ∧ NoDup (child_links_all st2)
    ∧ (∀ link, link ∈ child_links_all st2 ↔
               link ∈ child_links_all st1 ∧ link ∉ visited_links st1)
    ∧ trace st2 = trace st1 ++ evs
    ∧ navigated evs ≡ₚ child_links_all st2
    ∧ (∀ url, url ∈ navigated evs → url ∉ visited_links st1).
Proof.
  intros Hseeds.
  destruct (seed_phase_done web lines Hseeds) as (st1 & Hseed & _ & Hvisited & _).
  destruct (child_phase_run web sched st1)
    as (st2 & evs & Hchild & Hlinks2 & _ & _ & _ & _ & Htrace & Hevs).
  exists st1, st2, evs. rewrite Hevs, Hlinks2.
  split_and!; try done; try apply remaining_links_spec.
Qed.

(** C8: a run in which every parent URL has its [//] writes the row
    [Email] and then one row per element of the final [all_emails], the
    rows being in strictly ascending lexicographic order; a row is written
    for exactly the strings of the set, compared as they are. *)
Theorem output_sorted (web : string → option page) (lines : list string)
    (sched : list nat) :
  Forall (λ url, PyStr.contains "//" url = true) (seeds_of lines) →
  ∃ st rows,
    main web lines sched initial = (st, Done ())
    ∧ output st = Some (["Email"] :: ((λ email, [email]) <$> rows))
    ∧ StronglySorted str_lt rows
    ∧ NoDup rows
    ∧ ∀ e, e ∈ rows ↔ e ∈ all_emails st.
Proof.
  intros Hseeds.
  destruct (seed_phase_done web lines Hseeds) as (st1 & Hseed & _).
  destruct (child_phase_run web sched st1) as (st2 & evs & Hchild & _).
  destruct (save_and_report_run st2) as (st & Hsave & Hemails & _ & _ & Hout).
  exists st, (sorted (elements (all_emails st2))).
  rewrite Hemails. split_and!; [by eapply main_done|done|..];
    apply sorted_elements.
Qed.

(** C9: when some line of the input file, stripped, starts with [http]
    and contains no [//], line 98 raises [IndexError]; nothing catches it,
    so the run ends there and the output file is never opened. *)
Theorem missing_slashes_halts (web : string → option page)
    (lines : list string) (sched : list nat) (line : string) :
  line ∈ lines →
  PyStr.startswith (PyStr.strip line) "http" = true →
  PyStr.contains "//" (PyStr.strip line) = false →
  ∃ st, main web lines sched initial = (st, Raised IndexError)
        ∧ output st = None.
Proof.
  intros Hline Hhttp Hslashes.
  destruct (seed_phase_raise web lines) as (st1 & Hseed & Hout).
  { apply Exists_exists. exists (PyStr.strip line). split.
    - unfold seeds_of.
      replace (PyStr.strip line) with (normalize (PyStr.strip line)) at 1
        by (unfold normalize; by rewrite Hhttp).
      apply list_elem_of_fmap_2, list_elem_of_filter. split.
      + intros Heq. by rewrite Heq in Hhttp.
      + by apply list_elem_of_fmap_2.
    - done. }
  exists st1. split; [|done]. unfold main. by erewrite bind_raised.
Qed.

(** ** Seed normalization *)

Lemma normalize_http line :
  PyStr.startswith line "http" = true → normalize line = line.
Proof. unfold normalize. by intros ->. Qed.

(** C2 does not hold of lines 86-98: the test on line 86 is whether the
    line starts with [http], not whether it has a scheme.  The line
    [httpbin.org] has no scheme and starts with [http]: it is not given
    the prefix, line 98 then finds no [//] in it and raises, and the run
    ends there without an output file. *)
Theorem schemeless_seed_not_repaired :
  PyStr.contains "://" "httpbin.org" = false
  ∧ normalize "httpbin.org" = "httpbin.org"
  ∧ (main demo_web ["httpbin.org"] [] initial).2 = Raised IndexError
  ∧ output (main demo_web ["httpbin.org"] [] initial).1 = None.
Proof. split_and!; vm_compute; reflexivity. Qed.

(** ** Sessions *)

(** C3, as stated, fails: handed a session that already shows the page,
    [get_child_links] navigates it to the URL again. *)
Lemma links_step_navigates_again :
  ¬ (navigated
       (trace (get_child_links demo_web
                 (Driver 0 (demo_web "http://example.com"))
                 "http://example.com" "example.com" initial).1)
     = navigated (trace initial)).
Proof. vm_compute. discriminate. Qed.

(** C3, amended: an iteration of the loop over the parent URLs that
    reaches the links step (line 98 has a value) uses one session for both
    steps, and navigates that session to the parent URL twice: once to
    scrape the emails, once more to compute the child links. *)
Theorem links_step_renavigates (web : string → option page)
    (parent_url dom : string) (st : state) :
  domain_of (normalize parent_url) = Some dom →
  ∃ st' evs,
    scrape_parent web parent_url st = (st', Done ())
    ∧ trace st' = trace st ++ evs
    ∧ session_events evs
      = [EvCreate (sessions st);
         EvGet (sessions st) (normalize parent_url);
         EvGet (sessions st) (normalize parent_url);
         EvQuit (sessions st)]
    ∧ child_links_all st'
      = child_links_all st ++ child_links web (normalize parent_url) dom.
Proof.
  intros Hdom.
  destruct (scrape_parent_run web parent_url st) as [evs Hrun].
  rewrite Hdom in Hrun. destruct Hrun as [-> Hevs].
  by do 2 eexists.
Qed.

(** A worker releases the session it creates, whether the page renders or
    not. *)
Lemma scrape_worker_quits (web : string → option page) url st :
  ∃ st' evs,
    scrape_worker web url st = (st', Done (scraped web url))
    ∧ trace st' = trace st ++ evs
    ∧ session_events evs
      = [EvCreate (sessions st); EvGet (sessions st) url; EvQuit (sessions st)].
Proof.
  destruct (scrape_worker_run web url st) as (evs & -> & Hevs).
  by do 2 eexists.
Qed.

(** C4 does not hold of the loop over the parent URLs: on the input line
    [httpbin.org] the session created at line 91 is navigated, line 98
    raises, and [driver.quit()] at line 102 is never reached. *)
Theorem session_leak_on_index_error :
  (main demo_web ["httpbin.org"] [] initial).2 = Raised IndexError
  ∧ session_events (trace (main demo_web ["httpbin.org"] [] initial).1)
    = [EvCreate 0; EvGet 0 "httpbin.org"].
Proof. split; vm_compute; reflexivity. Qed.

(** ** Workers and the module-level state *)

(** C10: a worker returns its list of emails and leaves [all_emails],
    [visited_links] and the other module-level variables as they were;
    the future holds what the worker returned; the body of the loop over
    the completed futures is where a result is merged into [all_emails],
    and it changes no other variable. *)
Theorem workers_leave_globals (web : string → option page) :
  (∀ url st,
     ∃ st' emails,
       scrape_worker web url st = (st', Done emails)
       ∧ submit web url st = (st', Done (Future url (Done emails)))
       ∧ all_emails st' = all_emails st
       ∧ visited_links st' = visited_links st
       ∧ parent_urls st' = parent_urls st
       ∧ child_links_all st' = child_links_all st
       ∧ output st' = output st)
  ∧ (∀ f st,
       ∃ st',
         collect f st = (st', Done ())
         ∧ all_emails st'
           = all_emails st ∪ match future_result f with
                             | Done emails => list_to_set emails
                             | Raised _ => ∅
                             end
         ∧ visited_links st' = visited_links st
         ∧ parent_urls st' = parent_urls st
         ∧ child_links_all st' = child_links_all st
         ∧ sessions st' = sessions st
         ∧ output st' = output st).
Proof.
  split.
  - intros url st. unfold submit.
    destruct (scrape_worker_run web url st) as (evs & -> & _).
    by do 2 eexists.
  - intros [url [[|email emails]|err]] st; unfold collect; run;
      eexists; (split; [reflexivity|]); fields; split_and!; try done.
    + by rewrite list_to_set_nil, (right_id_L ∅ (∪)).
    + by rewrite (right_id_L ∅ (∪)).
Qed.

(** ** The properties on the example web *)

Lemma final_emails_union_example :
  Forall (λ url, PyStr.contains "//" url = true) (seeds_of ["example.org"])
  ∧ ∃ st,
      main staff_web ["example.org"] [1] initial = (st, Done ())
      ∧ (∀ e, e ∈ all_emails st ↔
           ((∃ url, url ∈ seeds_of ["example.org"] ∧ e ∈ scraped staff_web url)
            ∨ (∃ url dom link,
                 url ∈ seeds_of ["example.org"] ∧ domain_of url = Some dom
                 ∧ link ∈ child_links staff_web url dom
                 ∧ (link ∉ seeds_of ["example.org"])
                 ∧ e ∈ scraped staff_web link)))
      ∧ (∀ sched',
           ∃ st', main staff_web ["example.org"] sched' initial = (st', Done ())
                  ∧ all_emails st' = all_emails st).
Proof.
  assert (Forall (λ url, PyStr.contains "//" url = true)
            (seeds_of ["example.org"])) as Hseeds
    by (vm_compute; repeat constructor).
  split; [exact Hseeds|].
  exact (final_emails_union staff_web ["example.org"] [1] Hseeds).
Defined.

Lemma visited_never_refetched_example :
  ∃ st1 st2 evs,
    seed_phase demo_web ["example.com"; "example.com/team"] initial = (st1, Done ())
    ∧ child_phase demo_web [] st1 = (st2, Done ())
    ∧ visited_links st1
      = list_to_set (seeds_of ["example.com"; "example.com/team"])
    ∧ NoDup (child_links_all st2)
    ∧ (∀ link, link ∈ child_links_all st2 ↔
               link ∈ child_links_all st1 ∧ link ∉ visited_links st1)
    ∧ trace st2 = trace st1 ++ evs
    ∧ navigated evs ≡ₚ child_links_all st2
    ∧ (∀ url, url ∈ navigated evs → url ∉ visited_links st1).
Proof.
  apply (visited_never_refetched demo_web ["example.com"; "example.com/team"] []).
  vm_compute. repeat constructor.
Defined.

Lemma output_sorted_example :
  ∃ st rows,
    main demo_web ["example.com"] [] initial = (st, Done ())
    ∧ output st = Some (["Email"] :: ((λ email, [email]) <$> rows))
    ∧ StronglySorted str_lt rows
    ∧ NoDup rows
    ∧ ∀ e, e ∈ rows ↔ e ∈ all_emails st.
Proof.
  apply (output_sorted demo_web ["example.com"] []).
  vm_compute. repeat constructor.
Defined.

Lemma missing_slashes_halts_example :
  ∃ st, main demo_web ["example.com"; "httpexample.com"] [] initial
        = (st, Raised IndexError)
        ∧ output st = None.
Proof.
  apply (missing_slashes_halts demo_web ["example.com"; "httpexample.com"] []
           "httpexample.com").
  - right; left.
  - vm_compute; reflexivity.
  - vm_compute; reflexivity.
Defined.

Lemma links_step_renavigates_example :
  ∃ st' evs,
    scrape_parent demo_web "example.com" initial = (st', Done ())
    ∧ trace st' = trace initial ++ evs
    ∧ session_events evs
      = [EvCreate (sessions initial);
         EvGet (sessions initial) (normalize "example.com");
         EvGet (sessions initial) (normalize "example.com");
         EvQuit (sessions initial)]
    ∧ child_links_all st'
      = child_links_all initial
        ++ child_links demo_web (normalize "example.com") "example.com".
Proof.
  apply (links_step_renavigates demo_web "example.com" "example.com" initial).
  vm_compute; reflexivity.
Defined.

(** The scenario of the specification: the two addresses that differ in
    case only in their domain are both kept, and written in order. *)
Example scenario_case_preserved :
  output (main demo_web ["example.com"] [] initial).1
  = Some [["Email"]; ["a@example.com"]; ["b@EXAMPLE.com"]; ["zed@example.com"]].
Proof. vm_compute. reflexivity. Qed.

(** Three child tasks, the second one finishing first: the lines printed
    come in another order than when the tasks finish as submitted, the set
    of emails and the file written are the same. *)
Example scenario_completion_order :
  trace (main staff_web ["example.org"] [1] initial).1
  ≠ trace (main staff_web ["example.org"] [] initial).1
  ∧ all_emails (main staff_web ["example.org"] [1] initial).1
    = all_emails (main staff_web ["example.org"] [] initial).1
  ∧ output (main staff_web ["example.org"] [1] initial).1
    = Some [["Email"]; ["ann@example.org"]; ["cy@example.org"];
            ["info@example.org"]].
Proof. split_and!; [vm_compute; discriminate|vm_compute; reflexivity..]. Qed.

(** White space beyond ASCII is stripped too: a line made of a no-break
    space, [httpbin.org], a next-line character and a space is loaded as
    [httpbin.org], and the run ends at line 98. *)
Example scenario_no_break_space :
  PyStr.strip (String (Ascii.ascii_of_nat 160)
                 ("httpbin.org" +:+ String (Ascii.ascii_of_nat 133) " "))
  = "httpbin.org"
  ∧ (main demo_web
       [String (Ascii.ascii_of_nat 160)
          ("httpbin.org" +:+ String (Ascii.ascii_of_nat 133) " ")] [] initial).2
    = Raised IndexError.
Proof. split; vm_compute; reflexivity. Qed.

(** A child link that is itself a parent URL is not fetched again: with
    both [example.com] and [example.com/team] in the input file, no task
    is left for the child phase. *)
Example scenario_rediscovered_seed :
  child_links_all (seed_phase demo_web ["example.com"; "example.com/team"] initial).1
  = ["http://example.com/team"]
  ∧ child_links_all
      (main demo_web ["example.com"; "example.com/team"] [] initial).1 = [].
Proof. split; vm_compute; reflexivity. Qed.


(** * Further properties *)

(** ** The e-mail search *)

Lemma take_drop k s : PyStr.take k s +:+ PyStr.drop k s = s.
Proof.
  revert s. induction k as [|k IH]; intros [|c s]; simpl; try done.
  by rewrite append_cons, IH.
Qed.

Lemma findall_go_scattered p skip s :
  scattered (Re.findall_go p skip s) (PyStr.drop skip s).
Proof.
  revert skip. induction s as [|c s IH]; intros skip.
  - replace (PyStr.drop skip "") with "" by by destruct skip.
    simpl. destruct skip; [|constructor].
    destruct (Re.match_here p ""); [|constructor].
    apply (scattered_match "" [] ""). constructor.
  - destruct skip as [|k]; [|apply IH].
    cbn [Re.findall_go PyStr.drop].
    destruct (Re.match_here p (String c s)) as [m|].
    + rewrite <-(take_drop m (String c s)) at 2. apply scattered_match.
      destruct m as [|m]; simpl.
      * apply scattered_skip, (IH 0).
      * rewrite Nat.sub_0_r. apply IH.
    + apply scattered_skip, (IH 0).
Qed.

Lemma scattered_substring l s e : scattered l s → e ∈ l → substring_of e s.
Proof.
  induction 1 as [s|c l s _ IH|e' l s _ IH].
  - by intros ?%elem_of_nil.
  - intros (before & after & ->)%IH. by exists (String c before), after.
  - intros [->|(before & after & ->)%IH]%elem_of_cons.
    + by exists "", s.
    + exists (e' +:+ before), after. by rewrite append_assoc.
Qed.

Lemma length_append a b :
  String.length (a +:+ b) = String.length a + String.length b.
Proof.
  induction a as [|c a IH]; [done|]. rewrite append_cons. simpl. by rewrite IH.
Qed.

Lemma scattered_length l s :
  scattered l s → sum_list (String.length <$> l) ≤ String.length s.
Proof.
  induction 1 as [s|c l s _ IH|e l s _ IH].
  - simpl. lia.
  - simpl. lia.
  - rewrite fmap_cons, length_append. simpl. lia.
Qed.

(** [extract_emails] returns pieces of the text, in the order in which
    they occur in it and without overlap; so each match occurs in the
    text, and together the matches are no longer than the text. *)
Theorem extract_emails_scattered (text : string) :
  scattered (extract_emails text) text
  ∧ (∀ e, e ∈ extract_emails text → substring_of e text)
  ∧ sum_list (String.length <$> extract_emails text) ≤ String.length text.
Proof.
  pose proof (findall_go_scattered email_pattern 0 text) as Hsc.
  split_and!; [done| |by apply scattered_length].
  intros e. by apply scattered_substring.
Qed.

Lemma extract_emails_elem_shape text e :
  e ∈ extract_emails text → email_shape e.
Proof.
  intros (s' & m & Hm & ->)%findall_go_sound.
  by apply matches_email_shape, match_here_sound.
Qed.

(** A text without [@] has no match. *)
Theorem extract_emails_needs_at (text : string) :
  PyStr.contains "@" text = false → extract_emails text = [].
Proof.
  intros Hat. destruct (extract_emails text) as [|e l] eqn:Hex; [done|].
  assert (e ∈ extract_emails text) as He by (rewrite Hex; left).
  pose proof (extract_emails_elem_shape _ _ He)
    as (lp & dom & tld & -> & _).
  pose proof (findall_go_scattered email_pattern 0 text
              : scattered (extract_emails text) text) as Hsc.
  apply (scattered_substring _ _ _ Hsc) in He as (before & after & ->).
  assert (PyStr.contains "@" (before +:+ (lp +:+ "@" +:+ dom +:+ "." +:+ tld)
                              +:+ after) = true) as Hin; [|congruence].
  apply contains_spec. exists (before +:+ lp), (dom +:+ "." +:+ tld +:+ after).
  by rewrite !append_assoc.
Qed.

Lemma extract_emails_needs_at_example :
  PyStr.contains "@" "call 555-0100 or visit example.com" = false
  ∧ extract_emails "call 555-0100 or visit example.com" = [].
Proof.
  split; [vm_compute; reflexivity|].
  apply (extract_emails_needs_at "call 555-0100 or visit example.com").
  vm_compute; reflexivity.
Defined.

Lemma all_in_append cls s1 s2 :
  all_in cls (s1 +:+ s2) ↔ all_in cls s1 ∧ all_in cls s2.
Proof.
  induction s1 as [|c s1 IH]; [simpl; tauto|].
  rewrite append_cons. simpl. rewrite IH. tauto.
Qed.

Lemma all_in_impl (cls1 cls2 : ascii → bool) s :
  (∀ c, cls1 c = true → cls2 c = true) → all_in cls1 s → all_in cls2 s.
Proof. intros Hsub. induction s as [|c s IH]; simpl; [done|]. naive_solver. Qed.

Lemma span_all cls s : all_in cls s → Re.span cls s = String.length s.
Proof.
  induction s as [|c s IH]; simpl; [done|]. intros [-> ?]. by rewrite IH.
Qed.

Lemma span_append_stop cls s1 c s2 :
  all_in cls s1 → cls c = false →
  Re.span cls (s1 +:+ String c s2) = String.length s1.
Proof.
  intros Hall Hc. induction s1 as [|c1 s1 IH].
  - simpl. by rewrite Hc.
  - destruct Hall as [Hc1 ?]. rewrite append_cons. simpl.
    by rewrite Hc1, IH.
Qed.

Lemma drop_append s1 s2 : PyStr.drop (String.length s1) (s1 +:+ s2) = s2.
Proof. induction s1 as [|c s1 IH]; [by destruct s2|]. by rewrite append_cons. Qed.

Lemma drop_append_add k s1 s2 :
  PyStr.drop (String.length s1 + k) (s1 +:+ s2) = PyStr.drop k s2.
Proof. induction s1 as [|c s1 IH]; [done|]. by rewrite append_cons. Qed.

Lemma take_all s : PyStr.take (String.length s) s = s.
Proof. induction s as [|c s IH]; simpl; [done|]. by rewrite IH. Qed.

(** The quantifier settles on [j] repetitions when the rest of the
    pattern matches after [j] and after no larger count. *)
Lemma give_back_first continue lo j k m :
  lo ≤ j ≤ k → continue j = Some m →
  (∀ i, j < i ≤ k → continue i = None) →
  Re.give_back continue lo k = Some (j + m).
Proof.
  intros [Hlo Hjk] Hj Hfail. induction k as [|k IH].
  - assert (j = 0) as -> by lia. simpl.
    destruct lo; [|lia]. simpl. by rewrite Hj.
  - simpl. destruct (S k <? lo) eqn:Hlt; [apply Nat.ltb_lt in Hlt; lia|].
    destruct (decide (j = S k)) as [->|Hne]; [by rewrite Hj|].
    rewrite Hfail by lia. apply IH; [lia|]. intros i ?. apply Hfail. lia.
Qed.

Lemma findall_go_skip_all p s :
  Re.match_here p "" = None → Re.findall_go p (String.length s) s = [].
Proof.
  intros Hempty. induction s as [|c s IH]; simpl; [by rewrite Hempty|done].
Qed.

Lemma all_in_drop cls k s : all_in cls s → all_in cls (PyStr.drop k s).
Proof.
  revert s. induction k as [|k IH]; intros [|c s]; simpl; try done.
  intros [_ ?]. by apply IH.
Qed.

Lemma cls_letter_domain c : cls_letter c = true → cls_domain c = true.
Proof. unfold cls_domain. by intros ->. Qed.

(** On a string of the e-mail shape the matcher, started at its first
    character, consumes the whole string. *)
Lemma match_here_email lp dom tld :
  1 ≤ String.length lp → all_in cls_local lp →
  1 ≤ String.length dom → all_in cls_domain dom →
  2 ≤ String.length tld → all_in cls_letter tld →
  Re.match_here email_pattern (lp +:+ "@" +:+ dom +:+ "." +:+ tld)
  = Some (String.length (lp +:+ "@" +:+ dom +:+ "." +:+ tld)).
Proof.
  intros Hlp Hlpc Hdom Hdomc Htld Htldc.
  change (lp +:+ "@" +:+ dom +:+ "." +:+ tld)
    with (lp +:+ String "@" (dom +:+ String "." tld)).
  set (rest := dom +:+ String "." tld).
  assert (Re.match_here [Re.AtLeast 2 cls_letter] tld
          = Some (String.length tld + 0)) as Hlast.
  { cbn [Re.match_here]. rewrite span_all by done.
    apply give_back_first; [lia|done|intros; lia]. }
  assert (Re.match_here
            [Re.AtLeast 1 cls_domain; Re.Lit "."; Re.AtLeast 2 cls_letter] rest
          = Some (String.length dom + S (String.length tld + 0))) as Hrest.
  { cbn [Re.match_here]. rewrite span_all.
    2:{ apply all_in_append. split; [done|]. split; [done|].
        by eapply all_in_impl; [apply cls_letter_domain|]. }
    apply give_back_first.
    - unfold rest. rewrite length_append. simpl. lia.
    - unfold rest. rewrite drop_append. simpl.
      cbn [Re.match_here] in Hlast. by rewrite Hlast.
    - intros i [Hi _]. replace i with (String.length dom + S (i - S (String.length dom))) by lia.
      unfold rest. rewrite drop_append_add. cbn [PyStr.drop].
      pose proof (all_in_drop cls_letter (i - S (String.length dom)) tld Htldc)
        as Hsuffix.
      destruct (PyStr.drop _ tld) as [|c t]; [done|].
      destruct Hsuffix as [Hc _]. cbn [Re.match_here].
      destruct (Ascii.eqb_spec "." c) as [<-|]; [by vm_compute in Hc|done]. }
  unfold email_pattern. cbn [Re.match_here].
  rewrite span_append_stop by done.
  rewrite length_append. cbn [String.length].
  apply give_back_first; [lia| |intros; lia].
  cbv beta. rewrite drop_append. cbv iota.
  cbn [Re.match_here] in Hrest. rewrite Ascii.eqb_refl, Hrest.
  cbn [fmap option_fmap option_map]. do 2 f_equal.
  unfold rest. rewrite length_append. simpl. lia.
Qed.

(** Extracting from a string of the e-mail shape gives back that string,
    and nothing else: a match is a fixed point of [extract_emails]. *)
Theorem extract_emails_fixpoint (e : string) :
  email_shape e → extract_emails e = [e].
Proof.
  intros (lp & dom & tld & -> & Hlp & Hlpc & Hdom & Hdomc & Htld & Htldc).
  pose proof (match_here_email lp dom tld Hlp Hlpc Hdom Hdomc Htld Htldc) as Hm.
  destruct (lp +:+ "@" +:+ dom +:+ "." +:+ tld) as [|c s] eqn:He.
  { destruct lp; [simpl in Hlp; lia|done]. }
  unfold extract_emails, Re.findall. cbn [Re.findall_go]. rewrite Hm.
  cbn [String.length]. rewrite <-(take_all (String c s)) at 2.
  cbn [String.length]. f_equal.
  replace (S (String.length s) - 1) with (String.length s) by lia.
  by apply findall_go_skip_all.
Qed.

Lemma extract_emails_fixpoint_example :
  email_shape "b@EXAMPLE.com" ∧ extract_emails "b@EXAMPLE.com" = ["b@EXAMPLE.com"].
Proof.
  assert (email_shape "b@EXAMPLE.com") as Hshape.
  { exists "b", "EXAMPLE", "com". vm_compute. repeat split; lia. }
  split; [exact Hshape|].
  exact (extract_emails_fixpoint "b@EXAMPLE.com" Hshape).
Defined.

(** ** The parent domain of a URL *)

Lemma prefix_empty s : String.prefix "" s = true.
Proof. by destruct s. Qed.

Lemma no_slash_cons c s :
  PyStr.contains "/" (String c s) = false →
  c ≠ "/"%char ∧ PyStr.contains "/" s = false.
Proof.
  cbn [PyStr.contains]. intros [Hpre ?]%orb_false_elim. split; [|done].
  intros ->. simpl in Hpre. by rewrite prefix_empty in Hpre.
Qed.

Lemma prefix_other_char c sep c' s :
  c' ≠ c → String.prefix (String c sep) (String c' s) = false.
Proof. intros Hc. simpl. destruct (ascii_dec c c') as [Heq|]; [|done]. by destruct Hc. Qed.

Lemma no_slash_no_slashes s :
  PyStr.contains "/" s = false → PyStr.contains "//" s = false.
Proof.
  induction s as [|c s IH]; [done|].
  intros [Hc Hs]%no_slash_cons. cbn [PyStr.contains].
  by rewrite (IH Hs), orb_false_r, prefix_other_char.
Qed.

(** A stretch without [/] goes into the piece being accumulated. *)
Lemma split_go_slashes_through a cur rest :
  PyStr.contains "/" a = false →
  PyStr.split_go "//" 0 cur (a +:+ rest) = PyStr.split_go "//" 0 (cur +:+ a) rest.
Proof.
  revert cur. induction a as [|c a IH]; intros cur Ha.
  - by rewrite append_empty_r.
  - apply no_slash_cons in Ha as [Hc Ha]. rewrite append_cons.
    cbn [PyStr.split_go].
    by rewrite prefix_other_char, IH, append_assoc.
Qed.

Lemma split_go_slash_head a cur t :
  PyStr.contains "/" a = false →
  PyStr.split_go "/" 0 cur (a +:+ String "/" t)
  = (cur +:+ a) :: PyStr.split_go "/" 0 "" t.
Proof.
  revert cur. induction a as [|c a IH]; intros cur Ha.
  - rewrite append_empty_r. change ("" +:+ String "/" t) with (String "/" t).
    cbn [PyStr.split_go].
    replace (String.prefix "/" (String "/" t)) with true
      by (simpl; by rewrite prefix_empty).
    done.
  - apply no_slash_cons in Ha as [Hc Ha]. rewrite append_cons.
    cbn [PyStr.split_go].
    by rewrite prefix_other_char, IH, append_assoc.
Qed.

Lemma split_go_head sep skip cur s :
  ∃ u pieces, PyStr.split_go sep skip cur s = (cur +:+ u) :: pieces.
Proof.
  revert skip cur. induction s as [|c s IH]; intros skip cur;
    cbn [PyStr.split_go].
  - exists "", []. by rewrite append_empty_r.
  - destruct skip; [|by apply IH].
    destruct (String.prefix sep (String c s)).
    + eexists "", _. by rewrite append_empty_r.
    + destruct (IH 0 (cur +:+ String c "")) as (u & pieces & ->).
      exists (String c u), pieces. by rewrite append_assoc.
Qed.

(** Line 98 on a URL of the form scheme//host followed by nothing or by
    a path: the parent domain is the host. *)
Theorem domain_of_host (scheme host rest : string) :
  PyStr.contains "/" scheme = false →
  PyStr.contains "/" host = false →
  rest = "" ∨ (∃ path, rest = String "/" path) →
  domain_of (scheme +:+ "//" +:+ host +:+ rest) = Some host.
Proof.
  intros Hscheme Hhost Hrest. unfold domain_of, PyStr.split.
  rewrite split_go_slashes_through by done.
  change ("//" +:+ host +:+ rest) with (String "/" (String "/" (host +:+ rest))).
  cbn [PyStr.split_go].
  replace (String.prefix "//" (String "/" (String "/" (host +:+ rest))))
    with true by (simpl; by rewrite prefix_empty).
  cbn [String.length Nat.sub PyStr.split_go].
  rewrite split_go_slashes_through by done.
  change ("" +:+ host) with host.
  assert (∃ piece pieces,
    PyStr.split_go "//" 0 host rest = piece :: pieces
    ∧ PyStr.split_go "/" 0 "" piece !! 0 = Some host)
    as (piece & pieces & -> & Hpiece); [|done].
  destruct Hrest as [->|[path ->]].
  - exists host, []. split; [done|].
    by rewrite split_go_absent.
  - cbn [PyStr.split_go]. destruct (String.prefix "//" (String "/" path)).
    + eexists host, _. split; [done|]. by rewrite split_go_absent.
    + destruct (split_go_head "//" 0 (host +:+ String "/" "") path)
        as (u & pieces & ->).
      eexists _, pieces. split; [done|].
      rewrite append_assoc. change (String "/" "" +:+ u) with (String "/" u).
      by rewrite split_go_slash_head.
Qed.

Lemma domain_of_host_example :
  domain_of ("https:" +:+ "//" +:+ "example.com" +:+ "/team//x?y=1")
  = Some "example.com".
Proof.
  apply (domain_of_host "https:" "example.com" "/team//x?y=1").
  - vm_compute; reflexivity.
  - vm_compute; reflexivity.
  - right. by exists "team//x?y=1".
Defined.

(** ** Loading the parent URLs *)

Lemma lstrip_spec s :
  ∃ l, s = l +:+ PyStr.lstrip s ∧ all_in PyStr.isspace l
       ∧ ∀ c t, PyStr.lstrip s = String c t → PyStr.isspace c = false.
Proof.
  induction s as [|c s (l & Hs & Hl & Hhead)]; simpl.
  - by exists "".
  - destruct (PyStr.isspace c) eqn:Hc.
    + exists (String c l). rewrite append_cons, <-Hs. done.
    + exists "". split_and!; [done..|]. by intros ?? [= <- _].
Qed.

Lemma rstrip_spec s :
  ∃ r, s = PyStr.rstrip s +:+ r ∧ all_in PyStr.isspace r
       ∧ ∀ t c, PyStr.rstrip s = t +:+ String c "" → PyStr.isspace c = false.
Proof.
  induction s as [|a s (r & Hs & Hr & Hlast)]; simpl.
  - exists "". split_and!; [done..|]. by intros [|??] ?.
  - destruct (PyStr.rstrip s) as [|b r0] eqn:Hstrip.
    + change ("" +:+ r) with r in Hs. subst s.
      destruct (PyStr.isspace a) eqn:Ha.
      * exists (String a r). split_and!; [done..|]. by intros [|??] ?.
      * exists r. split_and!; [done..|].
        intros [|? [|??]] c; [|done..]. by intros [= <-].
    + exists r. rewrite append_cons, <-Hs. split_and!; [done..|].
      intros [|a' t] c; [done|]. rewrite append_cons. intros [= _ Heq].
      by apply (Hlast t c).
Qed.

Lemma rstrip_head c s :
  PyStr.isspace c = false → ∃ t, PyStr.rstrip (String c s) = String c t.
Proof.
  intros Hc. simpl. rewrite Hc. destruct (PyStr.rstrip s); eauto.
Qed.

(** What [line.strip()] leaves: the line without the white space at its
    two ends. *)
Lemma strip_spec line :
  (∃ l r, line = l +:+ PyStr.strip line +:+ r
          ∧ all_in PyStr.isspace l ∧ all_in PyStr.isspace r)
  ∧ (∀ c t, PyStr.strip line = String c t → PyStr.isspace c = false)
  ∧ (∀ t c, PyStr.strip line = t +:+ String c "" → PyStr.isspace c = false).
Proof.
  unfold PyStr.strip.
  destruct (lstrip_spec line) as (l & Hline & Hl & Hhead).
  destruct (rstrip_spec (PyStr.lstrip line)) as (r & Hmid & Hr & Hlast).
  split_and!; [|clear Hlast|done].
  - exists l, r. by rewrite <-Hmid.
  - destruct (PyStr.lstrip line) as [|c' s]; [done|].
    destruct (rstrip_head c' s (Hhead _ _ eq_refl)) as [t' ->].
    intros c t [= <- _]. by eapply Hhead.
Qed.

(** Lines 76-81 add to [parent_urls], and change nothing else, at most
    one entry per line of the file; each entry added is non-empty, is a
    line of the file without the white space at its two ends, and
    neither begins nor ends with white space. *)
Theorem load_parent_urls_stripped (lines : list string) (st : state) :
  ∃ loaded,
    load_parent_urls lines st
    = (with_parent_urls (λ l, l ++ loaded) st, Done ())
    ∧ length loaded ≤ length lines
    ∧ ∀ url, url ∈ loaded →
        url ≠ ""
        ∧ (∃ line l r, line ∈ lines ∧ line = l +:+ url +:+ r
                       ∧ all_in PyStr.isspace l ∧ all_in PyStr.isspace r)
        ∧ (∀ c t, url = String c t → PyStr.isspace c = false)
        ∧ (∀ t c, url = t +:+ String c "" → PyStr.isspace c = false).
Proof.
  eexists. split; [apply load_parent_urls_run|]. split.
  - rewrite <-(length_fmap PyStr.strip lines). apply length_filter.
  - intros url [Hne (line & -> & Hline)%list_elem_of_fmap]%list_elem_of_filter.
    destruct (strip_spec line) as ((l & r & Hdecomp & Hl & Hr) & Hhead & Hlast).
    split_and!; [done| |done..].
    by exists line, l, r.
Qed.


(** ** Sessions over a whole run *)

Section Sessions.

Variable web : string → option page.

Lemma scrape_parents_sessions seeds st :
  Forall (λ s, PyStr.contains "//" (normalize s) = true) seeds →
  ∃ st' evs,
    for_each seeds (scrape_parent web) st = (st', Done ())
    ∧ trace st' = trace st ++ evs
    ∧ session_events evs = seed_sessions (sessions st) (normalize <$> seeds)
    ∧ sessions st' = sessions st + length seeds.
Proof.
  intros Hseeds. revert st.
  induction Hseeds as [|s seeds Hs _ IH]; intros st;
    cbn [for_each fmap list_fmap seed_sessions length].
  { exists st, []. run. by rewrite (right_id_L [] (++)), Nat.add_0_r. }
  unfold mbind at 1, M_bind.
  destruct (scrape_parent_run web s st) as [evs1 Hrun].
  apply domain_of_is_Some in Hs as [dom Hdom]. rewrite Hdom in Hrun.
  destruct Hrun as [-> Hevs1].
  edestruct IH as (st' & evs2 & -> & Htrace & Hevs2 & Hsessions).
  fields. exists st', (evs1 ++ evs2). split_and!; [done| | |lia].
  - by rewrite Htrace, (assoc_L (++)).
  - by rewrite session_events_app, Hevs1, Hevs2.
Qed.

Lemma submit_all_sessions urls st :
  ∃ st' fs evs,
    submit_all web urls st = (st', Done fs)
    ∧ trace st' = trace st ++ evs
    ∧ session_events evs = worker_sessions (sessions st) urls
    ∧ sessions st' = sessions st + length urls
    ∧ child_links_all st' = child_links_all st.
Proof.
  revert st. induction urls as [|url urls IH]; intros st;
    cbn [submit_all worker_sessions length].
  { exists st, [], []. run. by rewrite (right_id_L [] (++)), Nat.add_0_r. }
  unfold mbind at 1, M_bind, submit.
  destruct (scrape_worker_run web url st) as (evs1 & -> & Hevs1).
  unfold mbind at 1, M_bind.
  edestruct IH as (st' & fs & evs2 & -> & Htrace & Hevs2 & Hsessions & Hlinks).
  run. do 2 eexists. exists (evs1 ++ evs2). split_and!; [done| | |lia|done].
  - by rewrite Htrace, (assoc_L (++)).
  - by rewrite session_events_app, Hevs1, Hevs2.
Qed.

Lemma seed_phase_sessions lines st1 :
  seed_phase web lines initial = (st1, Done ()) →
  session_events (trace st1) = seed_sessions 0 (seeds_of lines)
  ∧ sessions st1 = length (seeds_of lines).
Proof.
  unfold seeds_of. set (raw := filter _ _).
  unfold seed_phase, scrape_parents, initial.
  erewrite bind_done by apply load_parent_urls_run. fold raw. run.
  change ([] ++ raw) with raw. intros Hrun.
  destruct (decide (Forall (λ s, PyStr.contains "//" (normalize s) = true) raw))
    as [Hseeds|Hseeds].
  - edestruct (scrape_parents_sessions raw) as (st' & evs & Hrun' & Htrace & Hevs & Hn);
      [done|].
    rewrite Hrun in Hrun'. injection Hrun' as <-. fields.
    rewrite Htrace, length_fmap. by split.
  - apply not_Forall_Exists in Hseeds; [|apply _].
    edestruct (scrape_parents_raise web raw) as (st' & Hrun' & _).
    { eapply Exists_impl; [done|]. intros s Hs. simpl in Hs.
      by destruct (PyStr.contains "//" (normalize s)). }
    rewrite Hrun in Hrun'. done.
Qed.

Lemma child_phase_sessions sched st1 st2 :
  child_phase web sched st1 = (st2, Done ()) →
  ∃ evs,
    trace st2 = trace st1 ++ evs
    ∧ session_events evs = worker_sessions (sessions st1) (child_links_all st2)
    ∧ sessions st2 = sessions st1 + length (child_links_all st2).
Proof.
  unfold child_phase, remove_duplicates_and_visited, parallel_scraping. run.
  set (urls := remaining_links _ _).
  edestruct (submit_all_sessions urls)
    as (st' & fs & evs1 & -> & Htrace1 & Hevs1 & Hn & Hurls).
  edestruct (collect_all_run web (as_completed sched fs) st')
    as (st2' & evs2 & -> & _ & _ & _ & Hlinks & Hn2 & _ & Htrace2 & Hevs2).
  intros [= <-]. fields.
  eexists. split_and!.
  - rewrite Htrace2, Htrace1. fields. rewrite <-!(assoc_L (++)). reflexivity.
  - rewrite !session_events_app, Hevs1, Hevs2, Hlinks, Hurls.
    by rewrite (right_id_L [] (++)).
  - rewrite Hn2, Hn, Hlinks, Hurls. done.
Qed.

End Sessions.

Lemma save_and_report_trace st2 st :
  (save_results ;; report) st2 = (st, Done ()) →
  trace st
  = trace st2 ++ [EvPrint (MsgFinished (size (all_emails st2)));
                  EvPrint (MsgSaved output_file)]
  ∧ sessions st = sessions st2.
Proof.
  erewrite bind_done by apply save_results_run.
  unfold report. run. intros [= <-]. fields.
  by rewrite <-(assoc_L (++)).
Qed.

(** The loop over the parent URLs, when it reaches its end, has used the
    sessions as follows, in this order: for each parent URL, in the order
    of the file and as often as it is listed, a new session is created,
    navigated to the URL twice and released, before the next one is
    created. *)
Theorem seed_loop_sessions (web : string → option page) (lines : list string) :
  Forall (λ url, PyStr.contains "//" url = true) (seeds_of lines) →
  ∃ st1,
    seed_phase web lines initial = (st1, Done ())
    ∧ session_events (trace st1) = seed_sessions 0 (seeds_of lines).
Proof.
  intros Hseeds.
  destruct (seed_phase_done web lines Hseeds) as (st1 & Hseed & _).
  exists st1. split; [done|].
  by destruct (seed_phase_sessions web lines st1 Hseed) as [Hevs1 _].
Qed.

Lemma seed_loop_sessions_example :
  ∃ st1,
    seed_phase demo_web ["example.com"; "other.org"; "example.com"] initial
    = (st1, Done ())
    ∧ session_events (trace st1)
      = seed_sessions 0 (seeds_of ["example.com"; "other.org"; "example.com"]).
Proof.
  apply (seed_loop_sessions demo_web ["example.com"; "other.org"; "example.com"]).
  vm_compute. repeat constructor.
Defined.

(** ** How far a run goes, and what it writes *)



(** An input file with blank lines only (or no line at all): the run
    reaches its end without creating a session, and the output file holds
    the header row alone. *)
Theorem run_blank_input (web : string → option page) (lines : list string)
    (sched : list nat) :
  Forall (λ line, PyStr.strip line = "") lines →
  ∃ st,
    main web lines sched initial = (st, Done ())
    ∧ output st = Some [["Email"]]
    ∧ sessions st = 0
    ∧ session_events (trace st) = [].
Proof.
  intros Hblank.
  assert (seeds_of lines = []) as Hnone.
  { unfold seeds_of. induction Hblank as [|line lines Hline _ IH]; [done|].
    rewrite fmap_cons, filter_cons, decide_False; [done|].
    rewrite Hline. intros Hne. by destruct Hne. }
  assert (Forall (λ url, PyStr.contains "//" url = true) (seeds_of lines))
    as Hseeds by (rewrite Hnone; constructor).
  destruct (seed_phase_done web lines Hseeds)
    as (st1 & Hseed & Hemails1 & Hvisited & Hlinks1 & _).
  destruct (child_phase_run web sched st1)
    as (st2 & evs0 & Hchild & Hlinks2 & Hemails2 & _).
  destruct (save_and_report_run st2) as (st & Hsave & _ & _ & Hlinks & Hout).
  exists st. split; [by eapply main_done|].
  destruct (seed_phase_sessions web lines st1 Hseed) as [Hevs1 Hn1].
  destruct (child_phase_sessions web sched st1 st2 Hchild)
    as (evs & Htrace2 & Hevs2 & Hn2).
  destruct (save_and_report_trace st2 st Hsave) as [Htrace Hn].
  assert (child_links_all st2 = []) as Hnolinks.
  { apply elem_of_nil_inv. intros link.
    rewrite Hlinks2. intros [(url & dom & Hurl & _)%Hlinks1 _]%remaining_links_spec.
    rewrite Hnone in Hurl. by apply elem_of_nil in Hurl. }
  assert (all_emails st2 = ∅) as Hnoemails.
  { apply set_eq. intros e. rewrite Hemails2, Hemails1, Hnolinks, Hnone.
    rewrite elem_of_empty. split; [|done].
    intros [(? & ?%elem_of_nil & _)|(? & ?%elem_of_nil & _)]; done. }
  split_and!.
  - by rewrite Hout, Hnoemails, elements_empty.
  - by rewrite Hn, Hn2, Hn1, Hnone, Hnolinks.
  - rewrite Htrace, Htrace2, !session_events_app, Hevs1, Hevs2, Hnone, Hnolinks.
    done.
Qed.

Lemma run_blank_input_example :
  ∃ st,
    main demo_web [""; "   "] [] initial = (st, Done ())
    ∧ output st = Some [["Email"]]
    ∧ sessions st = 0
    ∧ session_events (trace st) = [].
Proof.
  apply (run_blank_input demo_web [""; "   "] []).
  repeat constructor.
Defined.

Lemma cls_domain_local c : cls_domain c = true → cls_local c = true.
Proof.
  unfold cls_domain, cls_local, one_of.
  destruct (cls_letter c), (in_range "0" "9" c); simpl; try done.
  destruct (Ascii.eqb c "."), (Ascii.eqb c "-"); simpl; try done.
  by rewrite !orb_true_r.
Qed.

Lemma scraped_shape web url e : e ∈ scraped web url → email_shape e.
Proof.
  unfold scraped. destruct (web url ≫= page_source) as [src|].
  - apply extract_emails_elem_shape.
  - by intros ?%elem_of_nil.
Qed.

Lemma email_shape_chars e :
  email_shape e → all_in (λ c, cls_local c || Ascii.eqb c "@") e.
Proof.
  intros (lp & dom & tld & -> & _ & Hlp & _ & Hdom & _ & Htld).
  change (lp +:+ "@" +:+ dom +:+ "." +:+ tld)
    with (lp +:+ String "@" (dom +:+ String "." tld)).
  apply all_in_append. split.
  { eapply all_in_impl; [|done]. by intros c ->. }
  split; [done|]. apply all_in_append. split.
  { eapply all_in_impl; [|done]. intros c ?. by rewrite cls_domain_local. }
  split; [done|].
  eapply all_in_impl; [|done].
  intros c ?. by rewrite cls_domain_local by by apply cls_letter_domain.
Qed.

(** Every row written after the header is a string of the e-mail shape,
    made of letters, digits and the characters [._%+-@] only; so no row
    holds a comma, a quote or a line break. *)
Theorem output_rows_shape (web : string → option page) (lines : list string)
    (sched : list nat) :
  Forall (λ url, PyStr.contains "//" url = true) (seeds_of lines) →
  ∃ st rows,
    main web lines sched initial = (st, Done ())
    ∧ output st = Some (["Email"] :: ((λ email, [email]) <$> rows))
    ∧ Forall email_shape rows
    ∧ Forall (all_in (λ c, cls_local c || Ascii.eqb c "@")) rows
    ∧ Forall (λ c, cls_local c || Ascii.eqb c "@" = false)
             [","%char; Ascii.ascii_of_nat 34; Ascii.ascii_of_nat 13;
              Ascii.ascii_of_nat 10].
Proof.
  intros Hseeds.
  destruct (seed_phase_done web lines Hseeds) as (st1 & Hseed & Hemails1 & _).
  destruct (child_phase_run web sched st1)
    as (st2 & evs & Hchild & _ & Hemails2 & _).
  destruct (save_and_report_run st2) as (st & Hsave & _ & _ & _ & Hout).
  exists st, (sorted (elements (all_emails st2))).
  assert (Forall email_shape (sorted (elements (all_emails st2)))) as Hshape.
  { apply Forall_forall. intros e He.
    apply sorted_elements, Hemails2 in He as [He|(link & _ & He)].
    - apply Hemails1 in He as (url & _ & He). by eapply scraped_shape.
    - by eapply scraped_shape. }
  split_and!; [by eapply main_done|done|done| |].
  - eapply Forall_impl; [done|]. apply email_shape_chars.
  - repeat constructor.
Qed.

Lemma output_rows_shape_example :
  ∃ st rows,
    main demo_web ["example.com"] [] initial = (st, Done ())
    ∧ output st = Some (["Email"] :: ((λ email, [email]) <$> rows))
    ∧ Forall email_shape rows
    ∧ Forall (all_in (λ c, cls_local c || Ascii.eqb c "@")) rows
    ∧ Forall (λ c, cls_local c || Ascii.eqb c "@" = false)
             [","%char; Ascii.ascii_of_nat 34; Ascii.ascii_of_nat 13;
              Ascii.ascii_of_nat 10].
Proof.
  apply (output_rows_shape demo_web ["example.com"] []).
  vm_compute. repeat constructor.
Defined.

(** The number printed at the end of a run is the number of rows written
    after the header, and the last line printed names the output file. *)
Theorem run_reports_rows (web : string → option page) (lines : list string)
    (sched : list nat) :
  Forall (λ url, PyStr.contains "//" url = true) (seeds_of lines) →
  ∃ st rows evs,
    main web lines sched initial = (st, Done ())
    ∧ output st = Some (["Email"] :: ((λ email, [email]) <$> rows))
    ∧ trace st = evs ++ [EvPrint (MsgFinished (length rows));
                         EvPrint (MsgSaved "scraped_emails.csv")].
Proof.
  intros Hseeds.
  destruct (seed_phase_done web lines Hseeds) as (st1 & Hseed & _).
  destruct (child_phase_run web sched st1) as (st2 & evs & Hchild & _).
  destruct (save_and_report_run st2) as (st & Hsave & _ & _ & _ & Hout).
  destruct (save_and_report_trace st2 st Hsave) as [Htrace _].
  exists st, (sorted (elements (all_emails st2))), (trace st2).
  split_and!; [by eapply main_done|done|].
  rewrite Htrace. unfold sorted.
  rewrite merge_sort_Permutation. reflexivity.
Qed.

Lemma run_reports_rows_example :
  ∃ st rows evs,
    main demo_web ["example.com"] [] initial = (st, Done ())
    ∧ output st = Some (["Email"] :: ((λ email, [email]) <$> rows))
    ∧ trace st = evs ++ [EvPrint (MsgFinished (length rows));
                         EvPrint (MsgSaved "scraped_emails.csv")].
Proof.
  apply (run_reports_rows demo_web ["example.com"] []).
  vm_compute. repeat constructor.
Defined.
